(** * Gas Oracle Bot: fetcher, publisher and update loop

    A shallow embedding of the wide-integer (wei) variant of the bot:
    [fetcher.ts] (price history, statistics, buy signal), [publisher.ts]
    (zero-price filtering before submission), [config.ts] (loading and
    validation) and [index.ts] (start-up and the update cycle).

    Conventions.
    - A JavaScript [bigint] is a [Z]; a string is a [string] of code units.
    - The module-level [priceHistory : Map<string, string[]>] is a
      [gmap string (list string)].
    - A [try]/[catch] body is a computation returning a [Completion]; state
      changes made before a throw persist.
    - Everything that comes from outside the process (RPC answers, the
      clock, the order in which pending requests settle, the sink's answer)
      is an explicit argument.
    - Console output is not part of the model. *)

From Stdlib Require Import ZArith Ascii String DecimalString DecimalPos.
From stdpp Require Import gmap list strings.

Local Open Scope string_scope.
Local Open Scope list_scope.
Local Open Scope Z_scope.

(** ** JavaScript values used by the bot *)

(** Completion of a statement list that may throw. *)
Inductive Completion (A : Type) : Type :=
| Normal (a : A)
| Throw (msg : string).
Arguments Normal {A} a.
Arguments Throw {A} msg.

#[global] Instance Completion_ret : MRet Completion := fun A a => Normal a.
#[global] Instance Completion_bind : MBind Completion := fun A B k c =>
  match c with
  | Normal a => k a
  | Throw m => Throw m
  end.

Definition ofOption {A} (msg : string) (o : option A) : Completion A :=
  match o with
  | Some a => Normal a
  | None => Throw msg
  end.

(** *** [BigInt(string)] and [bigint.toString()] *)

(** [!s] for a string: only the empty string is falsy. *)
Definition falsy (s : string) : bool :=
  match s with
  | EmptyString => true
  | _ => false
  end.

(** ASCII members of the StrWhiteSpaceChar class: TAB, LF, VT, FF, CR, SP. *)
Definition isWhiteSpace (c : ascii) : bool :=
  let n := nat_of_ascii c in
  ((9 <=? n)%nat && (n <=? 13)%nat) || (n =? 32)%nat.

Fixpoint trimStart (s : string) : string :=
  match s with
  | String c r => if isWhiteSpace c then trimStart r else s
  | EmptyString => EmptyString
  end.

(** Drops the trailing white space: a suffix made only of white space
    becomes empty. *)
Fixpoint trimEnd (s : string) : string :=
  match s with
  | String c r =>
      match trimEnd r with
      | EmptyString => if isWhiteSpace c then EmptyString else String c EmptyString
      | r' => String c r'
      end
  | EmptyString => EmptyString
  end.

Definition trim (s : string) : string := trimEnd (trimStart s).

(** Value of a digit in radix up to 16, either case. *)
Definition digitValue (c : ascii) : option Z :=
  let n := Z.of_nat (nat_of_ascii c) in
  if (48 <=? n) && (n <=? 57) then Some (n - 48)
  else if (97 <=? n) && (n <=? 102) then Some (n - 87)
  else if (65 <=? n) && (n <=? 70) then Some (n - 55)
  else None.

Fixpoint parseDigits (radix acc : Z) (s : string) : option Z :=
  match s with
  | EmptyString => Some acc
  | String c r =>
      match digitValue c with
      | Some d => if d <? radix then parseDigits radix (acc * radix + d) r else None
      | None => None
      end
  end.

(** NonDecimalIntegerLiteral body: at least one digit of the radix. *)
Definition parseRadix (radix : Z) (s : string) : option Z :=
  match s with
  | EmptyString => None
  | _ => parseDigits radix 0 s
  end.

(** DecimalDigits: at least one digit, leading zeros allowed. *)
Definition parseDecimalDigits (s : string) : option Z :=
  (fun d => Z.of_N (N.of_uint d)) <$> NilZero.uint_of_string s.

Definition parseSignedDecimal (s : string) : option Z :=
  match s with
  | String c r =>
      if Ascii.eqb c "-" then Z.opp <$> parseDecimalDigits r
      else if Ascii.eqb c "+" then parseDecimalDigits r
      else parseDecimalDigits s
  | EmptyString => parseDecimalDigits s
  end.

(** The prefix [0x], [0o] or [0b] (either case) of a non-decimal literal:
    its radix and the rest of the string. *)
Definition radixPrefix (t : string) : option (Z * string) :=
  match t with
  | String c0 (String c r) =>
      if Ascii.eqb c0 "0" then
        if (Ascii.eqb c "x" || Ascii.eqb c "X")%bool then Some (16, r)
        else if (Ascii.eqb c "o" || Ascii.eqb c "O")%bool then Some (8, r)
        else if (Ascii.eqb c "b" || Ascii.eqb c "B")%bool then Some (2, r)
        else None
      else None
  | _ => None
  end.

(** StringToBigInt: [None] is the SyntaxError that [BigInt(s)] throws. An
    empty or blank string is [0n]; a non-decimal literal takes no sign. *)
Definition StringToBigInt (s : string) : option Z :=
  let t := trim s in
  if falsy t then Some 0
  else
    match radixPrefix t with
    | Some (radix, r) => parseRadix radix r
    | None => parseSignedDecimal t
    end.

Definition SyntaxError : string := "SyntaxError: Cannot convert to a BigInt".

Definition BigInt (s : string) : Completion Z :=
  ofOption SyntaxError (StringToBigInt s).

(** [z.toString()] in radix 10. *)
Definition toString (z : Z) : string := NilZero.string_of_int (Z.to_int z).

(** [Number(z)] for a bigint [z]: the nearest double, ties to even. The
    result is integral, so it is again a [Z]; magnitudes past the largest
    finite double (which would give [Infinity]) are outside the model. *)
Definition Number (z : Z) : Z :=
  let a := Z.abs z in
  let bits := Z.log2 a + 1 in
  if bits <=? 53 then z
  else
    let sh := bits - 53 in
    let q := Z.shiftr a sh in
    let r := a - Z.shiftl q sh in
    let half := Z.shiftl 1 (sh - 1) in
    let q' := if (half <? r) || ((r =? half) && Z.odd q) then q + 1 else q in
    Z.sgn z * Z.shiftl q' sh.

(** [Math.round] on a number that is already integral. *)
Definition Math_round (x : Z) : Z := x.

(** [s.includes(sub)] *)
Fixpoint includes (s sub : string) : bool :=
  String.prefix sub s ||
  match s with
  | EmptyString => false
  | String _ r => includes r sub
  end.

(** [arr.slice(-n)] for [n > 0]: the start index is [max (length - n) 0]. *)
Definition slice_last {A} (n : nat) (l : list A) : list A :=
  drop (length l - n) l.

(** ** Computations over mutable state that may throw *)

Definition M (S A : Type) : Type := S -> S * Completion A.

#[global] Instance M_ret {S} : MRet (M S) := fun A a s => (s, Normal a).
#[global] Instance M_bind {S} : MBind (M S) := fun A B k m s =>
  match m s with
  | (s', Normal a) => k a s'
  | (s', Throw e) => (s', Throw e)
  end.

Definition liftC {S A} (c : Completion A) : M S A := fun s => (s, c).
Definition get {S} : M S S := fun s => (s, Normal s).
Definition put {S} (s : S) : M S unit := fun _ => (s, Normal tt).
Definition modify {S} (f : S -> S) : M S unit := fun s => (f s, Normal tt).

(** [try { body } catch (e) { handler }]: what [body] changed stays changed. *)
Definition tryCatch {S A} (body : M S A) (handler : string -> M S A) : M S A :=
  fun s =>
    match body s with
    | (s', Throw e) => handler e s'
    | r => r
    end.

(** Runs a computation on a component of the state. *)
Definition zoom {S T A} (proj : S -> T) (upd : T -> S -> S) (m : M T A) : M S A :=
  fun s => let '(t', r) := m (proj s) in (upd t' s, r).

(** [for (const x of l) { f(x) }] *)
Fixpoint forEach {S A} (l : list A) (f : A -> M S unit) : M S unit :=
  match l with
  | [] => mret tt
  | x :: r => f x ;; forEach r f
  end.

(** ** config.ts: data *)

Record ChainConfig := {
  name : string;
  rpcUrl : string;
  enabled : bool;
}.

(** ** fetcher.ts *)

Record GasPriceData := {
  chain : string;
  priceWei : string;
  high24h : string;
  low24h : string;
  timestamp : Z;
}.

Record Stats := {
  max : string;
  min : string;
}.

Record BuySignal := {
  isBuySignal : bool;
  savingsPercent : Z;
}.

(** [const priceHistory: Map<string, string[]>] *)
Abbreviation PriceHistory := (gmap string (list string)).

Definition MAX_HISTORY_SIZE : nat := 1000.

(** What [await provider.send('eth_gasPrice', [])] gives: the request (or
    the construction of the provider) fails, or the JSON-RPC result is
    [null], or it is a string. *)
Inductive RpcOutcome :=
| RpcRejected (msg : string)
| RpcNull
| RpcString (result : string).

Definition providerSend (rpc : RpcOutcome) : Completion (option string) :=
  match rpc with
  | RpcRejected msg => Throw msg
  | RpcNull => Normal None
  | RpcString result => Normal (Some result)
  end.

(** The loop of [calculateStats]: [max] and [min] are the running extrema. *)
Fixpoint scanStats (max min : Z) (prices : list string) : Completion (Z * Z) :=
  match prices with
  | [] => Normal (max, min)
  | price :: rest =>
      p ← BigInt price;
      let max := if max <? p then p else max in
      let min := if p <? min then p else min in
      scanStats max min rest
  end.

Definition calculateStats (prices : list string) : Completion Stats :=
  match prices with
  | [] => Normal {| max := "0"; min := "0" |}
  | first :: _ =>
      max0 ← BigInt first;
      min0 ← BigInt first;
      '(max1, min1) ← scanStats max0 min0 prices;
      Normal {| max := toString max1; min := toString min1 |}
  end.

(** The history update of [fetchChainGasPrice]: [push], then keep the last
    [MAX_HISTORY_SIZE] entries when the array grew past that size. *)
Definition appendHistory (history : list string) (priceWei : string) : list string :=
  let history := (history ++ [priceWei])%list in
  if (MAX_HISTORY_SIZE <? length history)%nat
  then slice_last MAX_HISTORY_SIZE history
  else history.

(** [fetchChainGasPrice], from the point where the request settles with
    [rpc]; [now] is the value of [Date.now()]. *)
Definition fetchChainGasPrice (chain : ChainConfig) (rpc : RpcOutcome) (now : Z)
  : M PriceHistory (option GasPriceData) :=
  tryCatch
    (gasPrice ← liftC (providerSend rpc);
     match gasPrice with
     | None => mret None
     | Some gasPrice =>
         if falsy gasPrice then mret None
         else
           p ← liftC (BigInt gasPrice);
           let priceWei := toString p in
           priceHistory ← get;
           let history := appendHistory (default [] (priceHistory !! name chain)) priceWei in
           put (<[name chain := history]> priceHistory);;
           stats ← liftC (calculateStats history);
           mret (Some {| chain := name chain;
                         priceWei := priceWei;
                         high24h := max stats;
                         low24h := min stats;
                         timestamp := now |})
     end)
    (fun _ => mret None).

(** One call of [fetchAllGasPrices] from the outside: the outcome and the
    clock reading of the request with index [i] among the enabled chains,
    and the order in which the requests settle. Every request settles
    once: an index is served at its first occurrence in [settleOrder], and
    the indices that do not occur are served afterwards in index order. *)
Record FetchEnv := {
  rpcOf : nat -> RpcOutcome;
  clockOf : nat -> Z;
  settleOrder : list nat;
}.

(** A slot of the array that [Promise.all] fills: [None] while pending. *)
Abbreviation Slot := (option (option GasPriceData)).

Definition settle (enabledChains : list ChainConfig) (env : FetchEnv) (i : nat)
    (slots : list Slot) : M PriceHistory (list Slot) :=
  match enabledChains !! i, slots !! i with
  | Some chain, Some None =>
      r ← fetchChainGasPrice chain (rpcOf env i) (clockOf env i);
      mret (<[i := Some r]> slots)
  | _, _ => mret slots
  end.

Fixpoint settleAll (enabledChains : list ChainConfig) (env : FetchEnv)
    (order : list nat) (slots : list Slot) : M PriceHistory (list Slot) :=
  match order with
  | [] => mret slots
  | i :: rest =>
      slots ← settle enabledChains env i slots;
      settleAll enabledChains env rest slots
  end.

Definition fetchAllGasPrices (chains : list ChainConfig) (env : FetchEnv)
  : M PriceHistory (list GasPriceData) :=
  let enabledChains := filter (fun c => enabled c = true) chains in
  let n := length enabledChains in
  results ← settleAll enabledChains env (settleOrder env ++ seq 0 n)%list (replicate n None);
  mret (omap (fun r : Slot => r ≫= id) results).

(** [weiToGwei] converts through [Number] and formats with [toFixed(6)];
    the text only reaches the console, so what is kept is whether the
    conversion of [weiStr] throws. *)
Definition weiToGwei (weiStr : string) : Completion unit :=
  _ ← BigInt weiStr;
  Normal tt.

Definition detectBuySignal (data : GasPriceData) : Completion BuySignal :=
  price ← BigInt (priceWei data);
  high ← BigInt (high24h data);
  low ← BigInt (low24h data);
  let avg := (high + low) ÷ 2 in
  if (avg =? 0) || (avg <=? price)
  then Normal {| isBuySignal := false; savingsPercent := 0 |}
  else
    let savings := Number (((avg - price) * 100) ÷ avg) in
    Normal {| isBuySignal := 10 <? savings; savingsPercent := Math_round savings |}.

(** ** config.ts *)

(** A JavaScript number that is [NaN] or integral. *)
Inductive JsNumber :=
| NaN
| Finite (z : Z).

(** The longest prefix of [s] made of digits of [radix], read as a number;
    [seen] tells whether a digit was read already. *)
Fixpoint digitsPrefix (radix acc : Z) (seen : bool) (s : string) : option Z :=
  let stop := if seen then Some acc else None in
  match s with
  | EmptyString => stop
  | String c r =>
      match digitValue c with
      | Some d => if d <? radix then digitsPrefix radix (acc * radix + d) true r else stop
      | None => stop
      end
  end.

(** [parseInt(s)] without a radix argument; exact below [2^53]. *)
Definition parseInt (s : string) : JsNumber :=
  let t := trimStart s in
  let '(sign, t) :=
    match t with
    | String c r =>
        if Ascii.eqb c "-" then (-1, r)
        else if Ascii.eqb c "+" then (1, r)
        else (1, t)
    | EmptyString => (1, t)
    end in
  let '(radix, t) :=
    match radixPrefix t with
    | Some (16, r) => (16, r)
    | _ => (10, t)
    end in
  match digitsPrefix radix 0 false t with
  | Some v => Finite (sign * v)
  | None => NaN
  end.

Record SuiConfig := {
  network : string;
  privateKey : string;
  packageId : string;
  oracleObjectId : string;
  adminCapId : string;
}.

Record Config := {
  sui : SuiConfig;
  chains : list ChainConfig;
  updateIntervalMs : JsNumber;
  batchSize : JsNumber;
}.

(** [process.env] *)
Abbreviation ProcessEnv := (gmap string string).

(** [process.env.KEY || fallback]: an unset or empty variable gives the
    fallback. *)
Definition envOr (env : ProcessEnv) (key fallback : string) : string :=
  match env !! key with
  | Some v => if falsy v then fallback else v
  | None => fallback
  end.

Definition loadConfig (env : ProcessEnv) : Config :=
  {| sui :=
       {| network := envOr env "SUI_NETWORK" "testnet";
          privateKey := envOr env "SUI_PRIVATE_KEY" "";
          packageId := envOr env "ORACLE_PACKAGE_ID" "0x0";
          oracleObjectId := envOr env "ORACLE_OBJECT_ID" "0x0";
          adminCapId := envOr env "ADMIN_CAP_ID" "0x0" |};
     chains :=
       [ {| name := "ethereum";
            rpcUrl := envOr env "ETHEREUM_RPC" "https://eth.llamarpc.com";
            enabled := true |};
         {| name := "base";
            rpcUrl := envOr env "BASE_RPC" "https://mainnet.base.org";
            enabled := true |};
         {| name := "arbitrum";
            rpcUrl := envOr env "ARBITRUM_RPC" "https://arb1.arbitrum.io/rpc";
            enabled := true |};
         {| name := "polygon";
            rpcUrl := envOr env "POLYGON_RPC" "https://polygon-rpc.com";
            enabled := true |};
         {| name := "optimism";
            rpcUrl := envOr env "OPTIMISM_RPC" "https://mainnet.optimism.io";
            enabled := true |};
         {| name := "arc";
            rpcUrl := envOr env "ARC_RPC" "https://rpc.arc.io";
            enabled := true |} ];
     updateIntervalMs := parseInt (envOr env "UPDATE_INTERVAL_MS" "500");
     batchSize := parseInt (envOr env "BATCH_SIZE" "5") |}.

Record Validation := {
  valid : bool;
  errors : list string;
}.

(** [if (cond) errors.push(msg)] *)
Definition pushIf (cond : bool) (msg : string) (errors : list string) : list string :=
  if cond then (errors ++ [msg])%list else errors.

Definition validateConfig (config : Config) : Validation :=
  let errors := [] in
  let errors := pushIf (falsy (privateKey (sui config)))
                  "SUI_PRIVATE_KEY is required" errors in
  let errors := pushIf (String.eqb (packageId (sui config)) "0x0")
                  "ORACLE_PACKAGE_ID not set (will run in demo mode)" errors in
  let errors := pushIf (String.eqb (oracleObjectId (sui config)) "0x0")
                  "ORACLE_OBJECT_ID not set" errors in
  let errors := pushIf (String.eqb (adminCapId (sui config)) "0x0")
                  "ADMIN_CAP_ID not set" errors in
  {| valid := (length (List.filter (fun e => negb (includes e "demo mode")) errors) =? 0)%nat;
     errors := errors |}.

(** ** publisher.ts *)

(** Arguments of a Move call as the transaction builder receives them. *)
Inductive TxArg :=
| ArgObject (id : string)
| ArgString (s : string)
| ArgU128 (v : Z)
| ArgVectorString (l : list string)
| ArgVectorU128 (l : list Z).

Record Transaction := {
  target : string;
  arguments : list TxArg;
}.

Definition inU128 (v : Z) : bool := (0 <=? v) && (v <? 2 ^ 128).

(** [tx.pure.u128(v)]: the serializer rejects a value outside the type. *)
Definition pure_u128 (v : Z) : Completion TxArg :=
  if inU128 v then Normal (ArgU128 v) else Throw "TypeError: Invalid u128 value".

(** [tx.pure.vector('u128', l)] *)
Definition pure_vector_u128 (l : list Z) : Completion TxArg :=
  if forallb inU128 l then Normal (ArgVectorU128 l) else Throw "TypeError: Invalid u128 value".

(** The answer of the network to the [k]-th submitted transaction: a
    digest, or a failure. *)
Definition Sink : Type := nat -> Transaction -> Completion string.

(** [await this.client.signAndExecuteTransaction(...)]; the state is the
    list of transactions handed to the client so far. *)
Definition signAndExecuteTransaction (sink : Sink) (tx : Transaction)
  : M (list Transaction) string :=
  fun submitted => ((submitted ++ [tx])%list, sink (length submitted) tx).

Definition publishSingleUpdate (config : Config) (sink : Sink) (data : GasPriceData)
  : M (list Transaction) (option string) :=
  if String.eqb (priceWei data) "0" then mret None
  else
    tryCatch
      (price ← liftC (BigInt (priceWei data) ≫= pure_u128);
       high ← liftC (BigInt (high24h data) ≫= pure_u128);
       low ← liftC (BigInt (low24h data) ≫= pure_u128);
       let tx :=
         {| target := packageId (sui config) +:+ "::oracle::update_gas_price";
            arguments := [ ArgObject (adminCapId (sui config));
                           ArgObject (oracleObjectId (sui config));
                           ArgObject "0x6";
                           ArgString (chain data);
                           price; high; low ] |} in
       digest ← signAndExecuteTransaction sink tx;
       mret (Some digest))
      (fun _ => mret None).

Definition publishBatchUpdate (config : Config) (sink : Sink) (dataArray : list GasPriceData)
  : M (list Transaction) (option string) :=
  let validData := List.filter (fun d => negb (String.eqb (priceWei d) "0")) dataArray in
  if (length validData =? 0)%nat then mret None
  else
    tryCatch
      (let chains := List.map chain validData in
       pricesWei ← liftC (mapM (fun d => BigInt (priceWei d)) validData);
       prices ← liftC (pure_vector_u128 pricesWei);
       let tx :=
         {| target := packageId (sui config) +:+ "::oracle::batch_update_gas_prices";
            arguments := [ ArgObject (adminCapId (sui config));
                           ArgObject (oracleObjectId (sui config));
                           ArgObject "0x6";
                           ArgVectorString chains;
                           prices ] |} in
       digest ← signAndExecuteTransaction sink tx;
       mret (Some digest))
      (fun _ => mret None).

(** [getFullnodeUrl(network)] of the Sui client library: it knows four
    networks and throws on any other name. *)
Definition getFullnodeUrl (network : string) : Completion string :=
  if String.eqb network "mainnet" then Normal "https://fullnode.mainnet.sui.io:443"
  else if String.eqb network "testnet" then Normal "https://fullnode.testnet.sui.io:443"
  else if String.eqb network "devnet" then Normal "https://fullnode.devnet.sui.io:443"
  else if String.eqb network "localnet" then Normal "http://127.0.0.1:9000"
  else Throw "Unknown network".

(** [initializeKeypair]: an empty key gives a fresh key pair; otherwise the
    key is decoded, and [keyDecodes] tells whether the decoder accepts it. *)
Definition initializeKeypair (privateKey : string) (keyDecodes : bool) : Completion unit :=
  if falsy privateKey then Normal tt
  else if keyDecodes then Normal tt
  else Throw "Invalid private key format. Use Base64 from sui.keystore or hex format.".

(** [checkOracleHealth]: [true] when [client.getObject] answers with
    [data], [false] when it answers without or fails; [answer] tells which. *)
Definition checkOracleHealth (answer : Completion bool) : bool :=
  match answer with
  | Normal hasData => hasData
  | Throw _ => false
  end.

(** [new SuiPublisher(config)] *)
Definition newSuiPublisher (config : Config) (keyDecodes : bool) : Completion unit :=
  _ ← getFullnodeUrl (network (sui config));
  initializeKeypair (privateKey (sui config)) keyDecodes.

(** ** index.ts *)

(** The state the imported modules keep: the fetcher's histories and the
    transactions handed to the Sui client. *)
Record World := {
  priceHistory : PriceHistory;
  submitted : list Transaction;
}.

Definition setHistory (h : PriceHistory) (w : World) : World :=
  {| priceHistory := h; submitted := submitted w |}.

Definition setSubmitted (l : list Transaction) (w : World) : World :=
  {| priceHistory := priceHistory w; submitted := l |}.

(** [main]'s local variables that [runUpdateCycle] closes over, next to the
    world. The counts stay far below [2^53], where [++] is exact. *)
Record LoopState := {
  world : World;
  updateCount : nat;
  errorCount : nat;
}.

Definition setWorld (w : World) (st : LoopState) : LoopState :=
  {| world := w; updateCount := updateCount st; errorCount := errorCount st |}.

Definition incrUpdateCount (st : LoopState) : LoopState :=
  {| world := world st; updateCount := S (updateCount st); errorCount := errorCount st |}.

Definition incrErrorCount (st : LoopState) : LoopState :=
  {| world := world st; updateCount := updateCount st; errorCount := S (errorCount st) |}.

(** What [runUpdateCycle] calls in the other modules. None of them can
    reach the counters. *)
Record Components := {
  fetchAll : list ChainConfig -> M World (list GasPriceData);
  publishBatch : list GasPriceData -> M World (option string);
  publishSingle : GasPriceData -> M World (option string);
}.

(** [n >= x] for an array length [n]; any comparison with [NaN] is false. *)
Definition lengthGe (n : nat) (x : JsNumber) : bool :=
  match x with
  | NaN => false
  | Finite z => z <=? Z.of_nat n
  end.

(** The body of the logging loop: the buy signal, then the gwei text. *)
Definition logPrice (price : GasPriceData) : M LoopState unit :=
  _ ← liftC (detectBuySignal price);
  liftC (weiToGwei (priceWei price)).

(** The block "Publish to Sui (if configured)": one batch transaction when
    the batch is large enough, else one transaction for each record. *)
Definition publishPrices (config : Config) (cs : Components) (prices : list GasPriceData)
  : M LoopState unit :=
  if negb (String.eqb (packageId (sui config)) "0x0") then
    if lengthGe (length prices) (batchSize config) then
      _ ← zoom world setWorld (publishBatch cs prices);
      mret tt
    else
      forEach prices (fun price =>
        _ ← zoom world setWorld (publishSingle cs price);
        mret tt)
  else mret tt.

(** The statements inside [try] of [runUpdateCycle]. *)
Definition runUpdateCycle_try (config : Config) (cs : Components) : M LoopState unit :=
  prices ← zoom world setWorld (fetchAll cs (chains config));
  if (length prices =? 0)%nat then mret tt
  else
    forEach prices logPrice;;
    publishPrices config cs prices;;
    modify incrUpdateCount.

Definition runUpdateCycle (config : Config) (cs : Components) : M LoopState unit :=
  tryCatch (runUpdateCycle_try config cs) (fun _ => modify incrErrorCount).

(** The fetcher and the publisher of this repository as components. *)
Definition botComponents (config : Config) (env : FetchEnv) (sink : Sink) : Components :=
  {| fetchAll := fun chains => zoom priceHistory setHistory (fetchAllGasPrices chains env);
     publishBatch := fun dataArray =>
       zoom submitted setSubmitted (publishBatchUpdate config sink dataArray);
     publishSingle := fun data =>
       zoom submitted setSubmitted (publishSingleUpdate config sink data) |}.

(** What [main] meets outside the process before the loop. *)
Record Startup := {
  keyDecodes : bool;
  oracleObject : Completion bool;
  firstFetch : FetchEnv;
  sinkOf : Sink;
}.

Inductive MainOutcome :=
| Exited (code : Z)
| LoopEntered (config : Config) (st : LoopState).

Definition initialState : LoopState :=
  {| world := {| priceHistory := ∅; submitted := [] |};
     updateCount := 0;
     errorCount := 0 |}.

(** [main] up to [setInterval(runUpdateCycle, config.updateIntervalMs)]. An
    exception that escapes [main] reaches [main().catch], which exits with
    code 1. [getBalance] catches its own failures and only feeds the
    console. *)
Definition main (env : ProcessEnv) (ext : Startup) : MainOutcome :=
  let config := loadConfig env in
  let validation := validateConfig config in
  if negb (valid validation) then Exited 1
  else
    match newSuiPublisher config (keyDecodes ext) with
    | Throw _ => Exited 1
    | Normal _ =>
        if negb (String.eqb (packageId (sui config)) "0x0")
           && negb (checkOracleHealth (oracleObject ext))
        then Exited 1
        else
          let cs := botComponents config (firstFetch ext) (sinkOf ext) in
          LoopEntered config (fst (runUpdateCycle config cs initialState))
    end.

(** *** The interval timer

    [setInterval(runUpdateCycle, config.updateIntervalMs)] calls
    [runUpdateCycle] at every expiry of the timer. The call returns at its
    first [await], and the cycle it started stays in flight until its
    promise settles. *)
Inductive Event :=
| TimerFires
| CycleSettles.

Record Scheduler := {
  inFlight : nat;
  started : nat;
}.

(** After the awaited initial run: nothing in flight. *)
Definition idle : Scheduler := {| inFlight := 0; started := 0 |}.

Definition onEvent (s : Scheduler) (e : Event) : Scheduler :=
  match e with
  | TimerFires =>
      {| inFlight := S (inFlight s); started := S (started s) |}
  | CycleSettles =>
      {| inFlight := pred (inFlight s); started := started s |}
  end.

Definition runEvents (trace : list Event) : Scheduler := fold_left onEvent trace idle.

(** ** Reference definitions, in the words of the specification *)

(** Buy signal: floor average, zero-average and at-or-above-average guards,
    integer percentage, fixed threshold 10. *)
Definition referenceBuySignal (high low priceValue : Z) : BuySignal :=
  let average := (high + low) / 2 in
  if (average =? 0) || (priceValue >=? average)
  then {| isBuySignal := false; savingsPercent := 0 |}
  else
    let savingsPercent := ((average - priceValue) * 100) / average in
    {| isBuySignal := savingsPercent >? 10; savingsPercent := savingsPercent |}.

(** The most recent [k] of the appended values, in arrival order. *)
Definition mostRecent {A} (k : nat) (appended : list A) : list A :=
  rev (take k (rev appended)).

(** The sample a source delivers: none when the request fails, when the
    result is missing or empty, or when it does not read as an integer. *)
Definition sampleOf (rpc : RpcOutcome) : option Z :=
  match rpc with
  | RpcString result => if falsy result then None else StringToBigInt result
  | _ => None
  end.

(** ** Vocabulary of the proofs *)

(** *** Strings of digits *)

Definition isDigitChar (c : ascii) : bool :=
  let n := nat_of_ascii c in ((48 <=? n)%nat && (n <=? 57)%nat).

Fixpoint digitsOnly (s : string) : bool :=
  match s with
  | EmptyString => true
  | String c r => isDigitChar c && digitsOnly r
  end.

(** *** Histories and records *)

(** The window after the values of [appended] arrived one by one. *)
Definition windowAfter (appended : list string) : list string :=
  fold_left appendHistory appended [].

(** Successive fetches of one chain, each settling with its outcome and
    clock reading. *)
Definition fetchRepeatedly (chain : ChainConfig) (outcomes : list (RpcOutcome * Z))
    (h : PriceHistory) : PriceHistory :=
  fold_left (fun h o => fst (fetchChainGasPrice chain (fst o) (snd o) h)) outcomes h.

(** Every stored entry reads as an integer. *)
Definition historyWf (h : PriceHistory) : Prop :=
  forall k l, h !! k = Some l -> Forall (fun s => is_Some (StringToBigInt s)) l.

(** The histories the process can hold: [priceHistory] starts empty, and
    the only code that writes to it is [fetchChainGasPrice], once a request
    has settled; this covers every interleaving of cycles. *)
Inductive reachable : PriceHistory -> Prop :=
| reachable_start : reachable ∅
| reachable_fetch h c rpc now :
    reachable h -> reachable (fst (fetchChainGasPrice c rpc now h)).

(** The three numeric fields of a record read as integers. *)
Definition recordWf (d : GasPriceData) : Prop :=
  is_Some (StringToBigInt (priceWei d)) /\
  is_Some (StringToBigInt (high24h d)) /\
  is_Some (StringToBigInt (low24h d)).

(** *** One call of [fetchAllGasPrices] *)

(** Chain name and price of the sources whose fetch succeeds, in the order
    of the enabled chains. *)
Definition successes (enabledChains : list ChainConfig) (env : FetchEnv)
  : list (string * string) :=
  omap (fun ic : nat * ChainConfig =>
          z ← sampleOf (rpcOf env (fst ic)); Some (name (snd ic), toString z))
       (imap pair enabledChains).

(** No fetch of this cycle for the chain named [k] succeeds. *)
Definition quiet (enabledChains : list ChainConfig) (env : FetchEnv) (k : string) : Prop :=
  forall (i : nat) (c : ChainConfig),
    enabledChains !! i = Some c -> name c = k -> sampleOf (rpcOf env i) = None.

(** A settled slot holds what the fetch of its chain must give. *)
Definition slotOk (enabledChains : list ChainConfig) (env : FetchEnv) (i : nat)
    (slot : Slot) : Prop :=
  match slot with
  | None => True
  | Some r =>
      exists c : ChainConfig, enabledChains !! i = Some c /\
        match sampleOf (rpcOf env i) with
        | None => r = None
        | Some z =>
            exists d, r = Some d /\ chain d = name c /\ priceWei d = toString z /\
                      recordWf d
        end
  end.

Definition settled (slots : list Slot) (j : nat) : Prop :=
  exists r, slots !! j = Some (Some r).

(** What holds between two settlements of one [fetchAllGasPrices] call that
    started with the histories [h0]. *)
Definition cycleInv (enabledChains : list ChainConfig) (env : FetchEnv)
    (h0 h : PriceHistory) (slots : list Slot) : Prop :=
  historyWf h /\
  length slots = length enabledChains /\
  (forall (i : nat) (slot : Slot), slots !! i = Some slot -> slotOk enabledChains env i slot) /\
  (forall k : string, quiet enabledChains env k -> h !! k = h0 !! k).

(** *** Publisher and configuration *)

(** The records that [publishBatchUpdate] keeps. *)
Definition nonZero (dataArray : list GasPriceData) : list GasPriceData :=
  List.filter (fun d => negb (String.eqb (priceWei d) "0")) dataArray.

(** The batch transaction for the given chains and prices. *)
Definition batchTx (config : Config) (chains : list string) (prices : list Z) : Transaction :=
  {| target := packageId (sui config) +:+ "::oracle::batch_update_gas_prices";
     arguments := [ ArgObject (adminCapId (sui config));
                    ArgObject (oracleObjectId (sui config));
                    ArgObject "0x6";
                    ArgVectorString chains;
                    ArgVectorU128 prices ] |}.

(** A required credential or identifier of the sink is missing: the
    private key is empty, or the oracle object id or the admin cap id still
    is the placeholder. *)
Definition missingCredential (config : Config) : Prop :=
  privateKey (sui config) = "" \/
  oracleObjectId (sui config) = "0x0" \/
  adminCapId (sui config) = "0x0".

(** *** Cycles and timer *)

(** The two counters of a loop state. *)
Definition counters (st : LoopState) : nat * nat := (updateCount st, errorCount st).

(** What follows a non-empty fetch inside [try], short of the final
    [updateCount++]. *)
Definition afterFetch (config : Config) (cs : Components) (prices : list GasPriceData)
  : M LoopState unit :=
  forEach prices logPrice;;
  publishPrices config cs prices.

(** Cycles run one after the other, each with its own outside world. *)
Definition runCycles (config : Config) (css : list Components) (st : LoopState) : LoopState :=
  fold_left (fun st cs => fst (runUpdateCycle config cs st)) css st.

(** The number of timer expiries, and of settlements, in a trace. *)
Definition ticks (trace : list Event) : nat :=
  length (List.filter (fun e => match e with TimerFires => true | CycleSettles => false end)
            trace).

Definition settlements (trace : list Event) : nat :=
  length (List.filter (fun e => match e with TimerFires => false | CycleSettles => true end)
            trace).

(** *** Sample data *)

(** A record with the given price, high and low. *)
Definition sample (priceValue high low : Z) : GasPriceData :=
  {| chain := "ethereum";
     priceWei := toString priceValue;
     high24h := toString high;
     low24h := toString low;
     timestamp := 0 |}.

Definition ethereum : ChainConfig :=
  {| name := "ethereum"; rpcUrl := "https://eth.llamarpc.com"; enabled := true |}.

(** Three sources [A], [B], [C]; the fetch of [B] fails, and the requests
    settle in the order [C], [A], [B]. *)
Definition threeChains : list ChainConfig :=
  [ {| name := "A"; rpcUrl := "https://a.example"; enabled := true |};
    {| name := "B"; rpcUrl := "https://b.example"; enabled := true |};
    {| name := "C"; rpcUrl := "https://c.example"; enabled := true |} ].

Definition failingB : FetchEnv :=
  {| rpcOf := fun i =>
       match i with
       | 0%nat => RpcString "0x10"
       | 1%nat => RpcRejected "timeout"
       | _ => RpcString "0x20"
       end;
     clockOf := fun i => 1700000000000 + Z.of_nat i;
     settleOrder := [2%nat; 0%nat] |}.

(** Every source fails. *)
Definition allFail : FetchEnv :=
  {| rpcOf := fun _ => RpcNull; clockOf := fun _ => 0; settleOrder := [] |}.

Definition historyB : PriceHistory := <["B" := ["7"; "9"]]> ∅.

Definition testConfig : Config :=
  {| sui := {| network := "testnet";
               privateKey := "0xabc";
               packageId := "0x2a";
               oracleObjectId := "0x2b";
               adminCapId := "0x2c" |};
     chains := threeChains;
     updateIntervalMs := Finite 500;
     batchSize := Finite 2 |}.

(** A network that accepts everything. *)
Definition acceptAll : Sink := fun _ _ => Normal "digest".

(** An environment with every variable of the sink set. *)
Definition fullEnv : ProcessEnv :=
  <["SUI_PRIVATE_KEY" := "0xabc"]>
    (<["ORACLE_PACKAGE_ID" := "0x2a"]>
       (<["ORACLE_OBJECT_ID" := "0x2b"]>
          (<["ADMIN_CAP_ID" := "0x2c"]> ∅))).

Definition startupOk : Startup :=
  {| keyDecodes := true;
     oracleObject := Normal true;
     firstFetch := failingB;
     sinkOf := acceptAll |}.

(** Components that throw from the fetch, or from the publisher. *)
Definition throwingFetch : Components :=
  {| fetchAll := fun _ => liftC (Throw "boom");
     publishBatch := fun _ => mret None;
     publishSingle := fun _ => mret None |}.

Definition throwingPublisher (batch : list GasPriceData) : Components :=
  {| fetchAll := fun _ => mret batch;
     publishBatch := fun _ => liftC (Throw "boom");
     publishSingle := fun _ => liftC (Throw "boom") |}.

(** *** Order of settlement *)

(** The same answers and clock readings, settling in another order. *)
Definition withOrder (env : FetchEnv) (order : list nat) : FetchEnv :=
  {| rpcOf := rpcOf env; clockOf := clockOf env; settleOrder := order |}.

(** Between two settlements of a call over chains with distinct names: a
    pending chain still has the window the call started with, a settled one
    has the slot and the window that its fetch gives on the starting
    histories [h0]; nothing else has changed. *)
Definition orderInv (enabledChains : list ChainConfig) (env : FetchEnv)
    (h0 h : PriceHistory) (slots : list Slot) : Prop :=
  length slots = length enabledChains /\
  (forall (i : nat) (c : ChainConfig),
     enabledChains !! i = Some c ->
     (slots !! i = Some None /\ h !! name c = h0 !! name c) \/
     (exists r,
        snd (fetchChainGasPrice c (rpcOf env i) (clockOf env i) h0) = Normal r /\
        slots !! i = Some (Some r) /\
        h !! name c
        = fst (fetchChainGasPrice c (rpcOf env i) (clockOf env i) h0) !! name c)) /\
  (forall k : string, k ∉ name <$> enabledChains -> h !! k = h0 !! k).

(** *** Publishing *)

(** A field that reads as an integer of the type [u128]. *)
Definition u128Of (s : string) : option Z :=
  z ← StringToBigInt s; if inU128 z then Some z else None.

(** The transaction of [publishSingleUpdate] for the given chain, price,
    high and low. *)
Definition singleTx (config : Config) (chainName : string) (price high low : Z)
  : Transaction :=
  {| target := packageId (sui config) +:+ "::oracle::update_gas_price";
     arguments := [ ArgObject (adminCapId (sui config));
                    ArgObject (oracleObjectId (sui config));
                    ArgObject "0x6";
                    ArgString chainName;
                    ArgU128 price; ArgU128 high; ArgU128 low ] |}.

(** Chain and price text of a record: all that the batch transaction uses. *)
Definition batchKey (d : GasPriceData) : string * string := (chain d, priceWei d).

(** The test configuration without a package id. *)
Definition demoConfig : Config :=
  {| sui := {| network := "testnet";
               privateKey := "0xabc";
               packageId := "0x0";
               oracleObjectId := "0x2b";
               adminCapId := "0x2c" |};
     chains := threeChains;
     updateIntervalMs := Finite 500;
     batchSize := Finite 2 |}.

(** *** Runs of the bot *)

(** The components of the bot for a run of cycles, each with its own
    outside world. *)
Definition botCycles (config : Config) (outs : list (FetchEnv * Sink)) : list Components :=
  (fun o => botComponents config (fst o) (snd o)) <$> outs.

(** The cycles of a run in which at least one source delivers. *)
Definition fruitful (config : Config) (outs : list (FetchEnv * Sink))
  : list (FetchEnv * Sink) :=
  filter (fun o => successes (filter (fun c => enabled c = true) (chains config)) (fst o) <> [])
         outs.

(** *** Chains that take part *)

(** Between two settlements of any call: only windows of enabled chains
    have changed, and a record in a slot carries the name of the chain of
    that slot. *)
Definition namesInv (enabledChains : list ChainConfig) (h0 h : PriceHistory)
    (slots : list Slot) : Prop :=
  (forall k : string, k ∉ name <$> enabledChains -> h !! k = h0 !! k) /\
  length slots = length enabledChains /\
  (forall (i : nat) (d : GasPriceData),
     slots !! i = Some (Some (Some d)) ->
     exists c : ChainConfig, enabledChains !! i = Some c /\ chain d = name c).

(** The samples that the source with index [i] delivers over a run of
    calls, oldest first. *)
Definition samplesOf (i : nat) (envs : list FetchEnv) : list string :=
  toString <$> omap (fun env => sampleOf (rpcOf env i)) envs.

(** The histories after a run of calls of [fetchAllGasPrices], one after
    the other. *)
Definition fetchCycles (chains : list ChainConfig) (envs : list FetchEnv)
    (h : PriceHistory) : PriceHistory :=
  fold_left (fun h env => fst (fetchAllGasPrices chains env h)) envs h.

(** *** Tactics *)

(** Unfolds the state-and-exception plumbing and computes. *)
Ltac stepM :=
  unfold mbind, mret, M_bind, M_ret, Completion_bind, Completion_ret,
    liftC, get, put, modify, tryCatch, zoom in *;
  cbn beta iota zeta delta [fst snd ofOption providerSend] in *.

(** * Properties *)

(** ** The JavaScript layer on examples *)

Example BigInt_hex : BigInt "0x3b9aca00" = Normal 1000000000.
Proof. reflexivity. Qed.

Example BigInt_padded : BigInt " 0042 " = Normal 42.
Proof. reflexivity. Qed.

Example BigInt_negative_hex : BigInt "-0x10" = Throw SyntaxError.
Proof. reflexivity. Qed.

Example BigInt_point : BigInt "1.5" = Throw SyntaxError.
Proof. reflexivity. Qed.

Example BigInt_blank : BigInt "   " = Normal 0.
Proof. reflexivity. Qed.

Example toString_wide : toString (2 ^ 64 + 1) = "18446744073709551617".
Proof. reflexivity. Qed.

Example toString_negative : toString (-15) = "-15".
Proof. reflexivity. Qed.

Example Number_exact : Number (2 ^ 53) = 2 ^ 53.
Proof. reflexivity. Qed.

Example Number_ties_to_even : Number (2 ^ 53 + 1) = 2 ^ 53 /\ Number (2 ^ 53 + 3) = 2 ^ 53 + 4.
Proof. split; reflexivity. Qed.

Example parseInt_default : parseInt "500" = Finite 500 /\ parseInt "12px" = Finite 12.
Proof. split; reflexivity. Qed.

Example parseInt_nan : parseInt "fast" = NaN.
Proof. reflexivity. Qed.

(** ** [BigInt] reads back what [toString] prints *)

Lemma isDigitChar_facts c :
  isDigitChar c = true ->
  isWhiteSpace c = false /\ Ascii.eqb c "-" = false /\ Ascii.eqb c "+" = false /\
  Ascii.eqb c "x" = false /\ Ascii.eqb c "X" = false /\
  Ascii.eqb c "o" = false /\ Ascii.eqb c "O" = false /\
  Ascii.eqb c "b" = false /\ Ascii.eqb c "B" = false.
Proof.
  destruct c as [[|] [|] [|] [|] [|] [|] [|] [|]]; vm_compute; intros H;
    first [discriminate H | repeat split].
Qed.

Lemma digitsOnly_string_of_uint d : digitsOnly (NilEmpty.string_of_uint d) = true.
Proof. induction d; simpl; auto. Qed.

Lemma digitsOnly_trimEnd s : digitsOnly s = true -> trimEnd s = s.
Proof.
  induction s as [|c r IH]; simpl; [done|].
  intros [Hc Hr]%andb_true_iff. rewrite (IH Hr).
  destruct r; [|done].
  by destruct (isDigitChar_facts c Hc) as [-> _].
Qed.

Lemma digitsOnly_trim s : digitsOnly s = true -> trim s = s.
Proof.
  intros H. unfold trim. destruct s as [|c r]; [done|].
  simpl in H. apply andb_true_iff in H as [Hc Hr].
  cbn [trimStart]. destruct (isDigitChar_facts c Hc) as [-> _].
  apply digitsOnly_trimEnd. simpl. by rewrite Hc, Hr.
Qed.

Lemma digitsOnly_radixPrefix s : digitsOnly s = true -> radixPrefix s = None.
Proof.
  destruct s as [|c0 [|c r]]; try done. simpl.
  intros [_ [Hc _]%andb_true_iff]%andb_true_iff.
  destruct (isDigitChar_facts c Hc) as (_ & _ & _ & -> & -> & -> & -> & -> & ->).
  by destruct (Ascii.eqb c0 "0").
Qed.

Lemma parseDecimalDigits_to_uint p :
  parseDecimalDigits (NilZero.string_of_uint (Pos.to_uint p)) = Some (Z.pos p).
Proof.
  unfold parseDecimalDigits.
  rewrite NilZero.usu by apply Unsigned.to_uint_nonnil.
  simpl. unfold N.of_uint. by rewrite DecimalPos.Unsigned.of_to.
Qed.

Lemma string_of_uint_pos p :
  NilZero.string_of_uint (Pos.to_uint p) = NilEmpty.string_of_uint (Pos.to_uint p).
Proof.
  pose proof (Unsigned.to_uint_nonnil p) as H.
  by destruct (Pos.to_uint p).
Qed.

Lemma StringToBigInt_toString z : StringToBigInt (toString z) = Some z.
Proof.
  destruct z as [|p|p]; [reflexivity| |].
  - unfold toString, StringToBigInt. cbn [Z.to_int NilZero.string_of_int].
    pose proof (parseDecimalDigits_to_uint p) as Hp.
    rewrite string_of_uint_pos in *.
    pose proof (digitsOnly_string_of_uint (Pos.to_uint p)) as Hd.
    rewrite (digitsOnly_trim _ Hd), (digitsOnly_radixPrefix _ Hd).
    destruct (NilEmpty.string_of_uint (Pos.to_uint p)) as [|c r] eqn:E; [done|].
    simpl in Hd. apply andb_true_iff in Hd as [Hc _].
    cbn [falsy parseSignedDecimal].
    by destruct (isDigitChar_facts c Hc) as (_ & -> & -> & _).
  - unfold toString, StringToBigInt. cbn [Z.to_int NilZero.string_of_int].
    pose proof (parseDecimalDigits_to_uint p) as Hp.
    rewrite string_of_uint_pos in *.
    pose proof (digitsOnly_string_of_uint (Pos.to_uint p)) as Hd.
    set (ds := NilEmpty.string_of_uint (Pos.to_uint p)) in *.
    assert (trim (String "-" ds) = String "-" ds) as ->.
    { unfold trim. cbn [trimStart]. change (isWhiteSpace "-") with false. cbn iota.
      cbn [trimEnd]. rewrite (digitsOnly_trimEnd _ Hd). by destruct ds. }
    cbn [falsy]. assert (radixPrefix (String "-" ds) = None) as ->.
    { by destruct ds. }
    cbn [parseSignedDecimal]. change (Ascii.eqb "-" "-") with true. cbn iota.
    by rewrite Hp.
Qed.

Lemma BigInt_toString z : BigInt (toString z) = Normal z.
Proof. unfold BigInt. by rewrite StringToBigInt_toString. Qed.

Lemma toString_inj z1 z2 : toString z1 = toString z2 -> z1 = z2.
Proof.
  intros H. apply (f_equal StringToBigInt) in H.
  rewrite !StringToBigInt_toString in H. congruence.
Qed.

Lemma toString_zero z : toString z = "0" <-> z = 0.
Proof.
  split; [|by intros ->].
  intros H. by apply toString_inj.
Qed.

(** ** Buy signal *)

Lemma Number_exact_below z : Z.abs z < 2 ^ 53 -> Number z = z.
Proof.
  intros H. unfold Number.
  destruct (Z.eq_dec (Z.abs z) 0) as [E|E].
  - by rewrite E.
  - assert (Z.log2 (Z.abs z) < 53) by (apply Z.log2_lt_pow2; lia).
    destruct (Z.leb_spec (Z.log2 (Z.abs z) + 1) 53); [done | lia].
Qed.

Lemma savings_range avg price :
  0 <= price -> price < avg -> 0 <= ((avg - price) * 100) / avg <= 100.
Proof.
  intros Hp Ha. split.
  - apply Z.div_pos; lia.
  - apply Z.div_le_upper_bound; lia.
Qed.

Lemma detectBuySignal_reference data high low priceValue :
  0 <= high -> 0 <= low -> 0 <= priceValue ->
  BigInt (priceWei data) = Normal priceValue ->
  BigInt (high24h data) = Normal high ->
  BigInt (low24h data) = Normal low ->
  detectBuySignal data = Normal (referenceBuySignal high low priceValue).
Proof.
  intros Hh Hl Hp Ep Eh El.
  unfold detectBuySignal, referenceBuySignal. rewrite Ep, Eh, El. cbn [mbind Completion_bind].
  rewrite (Z.quot_div_nonneg (high + low) 2) by lia.
  set (avg := (high + low) / 2).
  rewrite Z.geb_leb.
  destruct ((avg =? 0) || (avg <=? priceValue)) eqn:G; [done|].
  apply orb_false_iff in G as [_ G%Z.leb_gt].
  rewrite Z.quot_div_nonneg by lia.
  pose proof (savings_range avg priceValue Hp G) as R.
  rewrite Number_exact_below by lia.
  by rewrite Z.gtb_ltb.
Qed.

(** C1. [detectBuySignal] computes the reference buy signal on every record
    whose high, low and price are non-negative integers: floor average,
    no signal when the average is zero or the price is at or above it,
    otherwise the integer percentage of savings and a signal exactly above
    10. With high 120 and low 80, price 85 gives 15 and a signal, price 95
    gives 5 and no signal, price 100 gives no signal. *)
Theorem detectBuySignal_conforms :
  (forall data high low priceValue,
     0 <= high -> 0 <= low -> 0 <= priceValue ->
     BigInt (priceWei data) = Normal priceValue ->
     BigInt (high24h data) = Normal high ->
     BigInt (low24h data) = Normal low ->
     detectBuySignal data = Normal (referenceBuySignal high low priceValue) /\
     (isBuySignal (referenceBuySignal high low priceValue) = true <->
      10 < savingsPercent (referenceBuySignal high low priceValue))) /\
  detectBuySignal (sample 85 120 80)
    = Normal {| isBuySignal := true; savingsPercent := 15 |} /\
  detectBuySignal (sample 95 120 80)
    = Normal {| isBuySignal := false; savingsPercent := 5 |} /\
  detectBuySignal (sample 100 120 80)
    = Normal {| isBuySignal := false; savingsPercent := 0 |}.
Proof.
  split; [|by vm_compute].
  intros data high low priceValue Hh Hl Hp Ep Eh El. split.
  - by apply detectBuySignal_reference.
  - unfold referenceBuySignal.
    destruct (_ || _); cbn [isBuySignal savingsPercent]; [split; [done | lia]|].
    rewrite Z.gtb_ltb. apply Z.ltb_lt.
Qed.

Lemma detectBuySignal_conforms_witness :
  detectBuySignal (sample 33 100 20) = Normal (referenceBuySignal 100 20 33) /\
  referenceBuySignal 100 20 33 = {| isBuySignal := true; savingsPercent := 45 |}.
Proof.
  split; [|reflexivity].
  apply (proj1 detectBuySignal_conforms (sample 33 100 20) 100 20 33);
    first [lia | reflexivity].
Defined.

(** ** The history window *)

Lemma MAX_HISTORY_SIZE_pos : (0 < MAX_HISTORY_SIZE)%nat.
Proof. unfold MAX_HISTORY_SIZE. lia. Qed.

Lemma slice_last_length {A} n (l : list A) :
  length (slice_last n l) = Nat.min (length l) n.
Proof. unfold slice_last. rewrite length_drop. lia. Qed.

Lemma slice_last_app {A} n (l l' : list A) :
  slice_last n (slice_last n l ++ l') = slice_last n (l ++ l').
Proof.
  unfold slice_last.
  destruct (Nat.le_gt_cases (length l) n) as [Hle|Hgt].
  - replace (length l - n)%nat with 0%nat by lia. done.
  - rewrite !length_app, length_drop.
    replace (length l - (length l - n) + length l' - n)%nat with (length l') by lia.
    set (k := (length l - n)%nat).
    assert (drop (length l + length l' - n) (l ++ l')
            = drop (length l') (drop k l ++ l')) as ->; [|done].
    rewrite <- (take_drop k l) at 2.
    rewrite <- app_assoc.
    replace (length l + length l' - n)%nat
      with (length (take k l) + length l')%nat
      by (rewrite length_take; lia).
    by rewrite drop_app_add.
Qed.

Lemma appendHistory_slice history v :
  appendHistory history v = slice_last MAX_HISTORY_SIZE (history ++ [v]).
Proof.
  unfold appendHistory.
  destruct (Nat.ltb_spec MAX_HISTORY_SIZE (length (history ++ [v]))) as [H|H]; [done|].
  unfold slice_last. by replace (length (history ++ [v]) - MAX_HISTORY_SIZE)%nat with 0%nat by lia.
Qed.

Lemma fold_appendHistory values history :
  fold_left appendHistory values (slice_last MAX_HISTORY_SIZE history)
  = slice_last MAX_HISTORY_SIZE (history ++ values).
Proof.
  revert history. induction values as [|v values IH]; intros history; simpl.
  - by rewrite app_nil_r.
  - rewrite appendHistory_slice, slice_last_app, IH. by rewrite <- app_assoc.
Qed.

Lemma windowAfter_slice appended :
  windowAfter appended = slice_last MAX_HISTORY_SIZE appended.
Proof. apply (fold_appendHistory appended []). Qed.

Lemma mostRecent_drop {A} k (l : list A) :
  mostRecent k l = drop (length l - k) l.
Proof. unfold mostRecent. by rewrite firstn_rev, rev_involutive. Qed.

Lemma slice_last_mostRecent {A} n (l : list A) :
  slice_last n l = mostRecent (Nat.min (length l) n) l.
Proof.
  rewrite mostRecent_drop. unfold slice_last. f_equal. lia.
Qed.

Lemma appendHistory_step history v :
  (length history <= MAX_HISTORY_SIZE)%nat ->
  appendHistory history v =
    if (length history =? MAX_HISTORY_SIZE)%nat then tail history ++ [v] else history ++ [v].
Proof.
  intros Hle. pose proof MAX_HISTORY_SIZE_pos as Hpos.
  unfold appendHistory. rewrite length_app. cbn [length].
  destruct (Nat.eqb_spec (length history) MAX_HISTORY_SIZE) as [E|E].
  - destruct (Nat.ltb_spec MAX_HISTORY_SIZE (length history + 1)); [|lia].
    unfold slice_last. rewrite length_app. cbn [length].
    replace (length history + 1 - MAX_HISTORY_SIZE)%nat with 1%nat by lia.
    destruct history; [simpl in E; lia | done].
  - by destruct (Nat.ltb_spec MAX_HISTORY_SIZE (length history + 1)); [lia|].
Qed.


(** ** Statistics *)

Lemma fold_max_spec zs m :
  let r := fold_left Z.max zs m in
  m <= r /\ (forall z, z ∈ zs -> z <= r) /\ (r = m \/ r ∈ zs).
Proof.
  revert m. induction zs as [|z zs IH]; intros m; cbn [fold_left].
  - split; [lia|]. split; [|by left]. by intros z Hz%elem_of_nil.
  - destruct (IH (Z.max m z)) as (H1 & H2 & H3). split; [lia|]. split.
    + intros y [->|Hy]%elem_of_cons; [lia | by apply H2].
    + destruct H3 as [H3|H3]; [|right; by apply elem_of_cons; right].
      destruct (Z.max_spec m z) as [[_ E]|[_ E]].
      * right. apply elem_of_cons. left. congruence.
      * left. congruence.
Qed.

Lemma fold_min_spec zs m :
  let r := fold_left Z.min zs m in
  r <= m /\ (forall z, z ∈ zs -> r <= z) /\ (r = m \/ r ∈ zs).
Proof.
  revert m. induction zs as [|z zs IH]; intros m; cbn [fold_left].
  - split; [lia|]. split; [|by left]. by intros z Hz%elem_of_nil.
  - destruct (IH (Z.min m z)) as (H1 & H2 & H3). split; [lia|]. split.
    + intros y [->|Hy]%elem_of_cons; [lia | by apply H2].
    + destruct H3 as [H3|H3]; [|right; by apply elem_of_cons; right].
      destruct (Z.min_spec m z) as [[_ E]|[_ E]].
      * left. congruence.
      * right. apply elem_of_cons. left. congruence.
Qed.

Lemma scanStats_spec prices max min :
  scanStats max min prices =
    match mapM StringToBigInt prices with
    | Some zs => Normal (fold_left Z.max zs max, fold_left Z.min zs min)
    | None => Throw SyntaxError
    end.
Proof.
  revert max min. induction prices as [|price rest IH]; intros mx mn; [done|].
  cbn [scanStats mapM]. unfold BigInt.
  destruct (StringToBigInt price) as [p|]; [|done].
  cbn. rewrite IH. destruct (mapM StringToBigInt rest) as [zs|]; [|done].
  cbn. do 2 f_equal.
  - f_equal. destruct (Z.ltb_spec mx p); lia.
  - f_equal. destruct (Z.ltb_spec p mn); lia.
Qed.

Lemma calculateStats_spec prices :
  calculateStats prices =
    match mapM StringToBigInt prices with
    | Some [] => Normal {| max := "0"; min := "0" |}
    | Some (z :: zs) =>
        Normal {| max := toString (fold_left Z.max zs z);
                  min := toString (fold_left Z.min zs z) |}
    | None => Throw SyntaxError
    end.
Proof.
  destruct prices as [|first rest]; [done|].
  unfold calculateStats, BigInt. cbn [mapM].
  destruct (StringToBigInt first) as [z|] eqn:E; [|done].
  cbn [ofOption mbind Completion_bind]. rewrite scanStats_spec.
  cbn [mapM]. rewrite E.
  cbn. destruct (mapM StringToBigInt rest) as [zs|]; [|done].
  cbn. by rewrite Z.max_id, Z.min_id.
Qed.

Lemma mapM_StringToBigInt_toString zs :
  mapM StringToBigInt (toString <$> zs) = Some zs.
Proof.
  apply mapM_Some. induction zs; constructor; [apply StringToBigInt_toString | done].
Qed.

(** The extrema that [calculateStats] reports for a window whose entries
    read as [zs]. *)
Lemma calculateStats_extrema prices zs stats :
  mapM StringToBigInt prices = Some zs ->
  zs <> [] ->
  calculateStats prices = Normal stats ->
  exists hi lo,
    max stats = toString hi /\ min stats = toString lo /\
    hi ∈ zs /\ lo ∈ zs /\ forall z, z ∈ zs -> lo <= z <= hi.
Proof.
  intros Hzs Hne. rewrite calculateStats_spec, Hzs.
  destruct zs as [|z zs]; [done|]. intros [= <-].
  destruct (fold_max_spec zs z) as (M1 & M2 & M3).
  destruct (fold_min_spec zs z) as (N1 & N2 & N3).
  eexists _, _. split; [done|]. split; [done|]. split; [|split].
  - apply elem_of_cons. destruct M3; auto.
  - apply elem_of_cons. destruct N3; auto.
  - intros y [->|Hy]%elem_of_cons; [lia|]. split; [by apply N2 | by apply M2].
Qed.

(** C3. On every non-empty window, [calculateStats] returns the exact
    maximum and the exact minimum of the contents, printed without loss;
    on a one-element window both are that element; a value above [2^64]
    that is appended and read back through the statistics comes back with
    its exact magnitude. *)
Theorem calculateStats_exact (contents : list Z) :
  contents <> [] ->
  (exists hi lo,
     calculateStats (toString <$> contents)
       = Normal {| max := toString hi; min := toString lo |} /\
     BigInt (toString hi) = Normal hi /\ BigInt (toString lo) = Normal lo /\
     hi ∈ contents /\ lo ∈ contents /\
     forall z, z ∈ contents -> lo <= z <= hi) /\
  (forall z, calculateStats [toString z]
             = Normal {| max := toString z; min := toString z |}) /\
  calculateStats (appendHistory [] (toString (2 ^ 64 + 1)))
    = Normal {| max := "18446744073709551617"; min := "18446744073709551617" |} /\
  BigInt "18446744073709551617" = Normal (2 ^ 64 + 1).
Proof.
  intros Hne. split; [|split; [|by vm_compute]].
  - pose proof (mapM_StringToBigInt_toString contents) as Hzs.
    destruct (calculateStats (toString <$> contents)) as [stats|msg] eqn:E.
    + destruct (calculateStats_extrema _ _ _ Hzs Hne E) as (hi & lo & H1 & H2 & H3).
      exists hi, lo. rewrite !BigInt_toString. destruct stats; simpl in *; by subst.
    + rewrite calculateStats_spec, Hzs in E. by destruct contents.
  - intros z. rewrite calculateStats_spec.
    change [toString z] with (toString <$> [z]).
    by rewrite mapM_StringToBigInt_toString.
Qed.

Lemma calculateStats_exact_witness :
  [5; 2 ^ 70; 3] <> [] /\
  exists hi lo,
    calculateStats (toString <$> [5; 2 ^ 70; 3])
      = Normal {| max := toString hi; min := toString lo |} /\
    hi ∈ [5; 2 ^ 70; 3] /\ lo ∈ [5; 2 ^ 70; 3].
Proof.
  split; [discriminate|].
  destruct (proj1 (calculateStats_exact [5; 2 ^ 70; 3] ltac:(discriminate)))
    as (hi & lo & E & _ & _ & Hhi & Hlo & _).
  exists hi, lo. split; [exact E|]. split; [exact Hhi | exact Hlo].
Defined.

Example calculateStats_three :
  calculateStats ["5"; "1180591620717411303424"; "3"]
    = Normal {| max := "1180591620717411303424"; min := "3" |}.
Proof. vm_compute. reflexivity. Qed.

(** ** One fetch *)

Lemma bind_run {S A B} (m : M S A) (k : A -> M S B) (s : S) :
  (m ≫= k) s =
    match m s with
    | (s', Normal a) => k a s'
    | (s', Throw e) => (s', Throw e)
    end.
Proof. reflexivity. Qed.

Lemma ret_run {S A} (a : A) (s : S) : (mret a : M S A) s = (s, Normal a).
Proof. reflexivity. Qed.

Lemma zoom_run {S T A} (proj : S -> T) (upd : T -> S -> S) (m : M T A) (s : S) :
  zoom proj upd m s = let '(t', r) := m (proj s) in (upd t' s, r).
Proof. reflexivity. Qed.

Lemma fetchChainGasPrice_spec chain rpc now h :
  fetchChainGasPrice chain rpc now h =
    match sampleOf rpc with
    | None => (h, Normal None)
    | Some z =>
        let history := appendHistory (default [] (h !! name chain)) (toString z) in
        (<[name chain := history]> h,
         Normal (match calculateStats history with
                 | Normal stats =>
                     Some {| chain := name chain;
                             priceWei := toString z;
                             high24h := max stats;
                             low24h := min stats;
                             timestamp := now |}
                 | Throw _ => None
                 end))
    end.
Proof.
  unfold fetchChainGasPrice, sampleOf.
  destruct rpc as [msg| |result]; [done..|].
  stepM. destruct (falsy result); [done|].
  unfold BigInt. destruct (StringToBigInt result) as [z|]; [|done].
  stepM. by destruct (calculateStats _).
Qed.

Lemma appendHistory_last history v : v ∈ appendHistory history v.
Proof.
  pose proof MAX_HISTORY_SIZE_pos.
  rewrite appendHistory_slice. unfold slice_last.
  rewrite length_app. cbn [length].
  rewrite drop_app_le by lia.
  apply elem_of_app. right. apply elem_of_cons. by left.
Qed.

Lemma fetchRepeatedly_window chain outcomes h :
  default [] (fetchRepeatedly chain outcomes h !! name chain)
  = fold_left appendHistory
      (toString <$> omap (fun o : RpcOutcome * Z => sampleOf (fst o)) outcomes)
      (default [] (h !! name chain)).
Proof.
  revert h. induction outcomes as [|[rpc now] outcomes IH]; intros h; [done|].
  change (fetchRepeatedly chain ((rpc, now) :: outcomes) h)
    with (fetchRepeatedly chain outcomes (fst (fetchChainGasPrice chain rpc now h))).
  rewrite IH, fetchChainGasPrice_spec. cbn [omap list_omap fst snd].
  destruct (sampleOf rpc) as [z|]; [|done].
  cbn [fst fmap list_fmap fold_left]. by rewrite lookup_insert_eq.
Qed.

(** C2. The history window is bounded and first-in first-out: however many
    values were appended, the window holds at most [MAX_HISTORY_SIZE] = 1000
    of them, namely the most recent [min n 1000] in arrival order, and the
    next append evicts the single oldest value exactly when the window is
    full. The history that successive fetches of a chain leave in
    [priceHistory] is this window of the samples fetched. *)
Theorem history_window_fifo (appended : list string) :
  MAX_HISTORY_SIZE = 1000%nat /\
  (length (windowAfter appended) <= MAX_HISTORY_SIZE)%nat /\
  windowAfter appended
    = mostRecent (Nat.min (length appended) MAX_HISTORY_SIZE) appended /\
  (forall v,
     windowAfter (appended ++ [v]) =
       if (length (windowAfter appended) =? MAX_HISTORY_SIZE)%nat
       then tail (windowAfter appended) ++ [v]
       else windowAfter appended ++ [v]) /\
  (forall chain outcomes,
     default [] (fetchRepeatedly chain outcomes ∅ !! name chain)
     = windowAfter (toString <$> omap (fun o : RpcOutcome * Z => sampleOf (fst o)) outcomes)).
Proof.
  assert (length (windowAfter appended) <= MAX_HISTORY_SIZE)%nat as Hlen.
  { rewrite windowAfter_slice, slice_last_length. lia. }
  split; [done|]. split; [done|]. split; [|split].
  - rewrite windowAfter_slice. apply slice_last_mostRecent.
  - intros v. unfold windowAfter at 1. rewrite fold_left_app. cbn [fold_left].
    by apply appendHistory_step.
  - intros chain outcomes. rewrite fetchRepeatedly_window. by rewrite lookup_empty.
Qed.

Example window_evicts_oldest :
  windowAfter (toString <$> (Z.of_nat <$> seq 0 1002))
  = toString <$> (Z.of_nat <$> seq 2 1000).
Proof. vm_compute. reflexivity. Qed.

Lemma quot_double z : (z + z) ÷ 2 = z.
Proof. replace (z + z) with (z * 2) by lia. by apply Z.quot_mul. Qed.

(** C4. The first sample of a source never meets the empty-window
    sentinel: when no history exists yet for the chain, the value is
    appended first, so the window that the statistics read is that one
    value, and they return the value itself for both [max] and [min]; they
    coincide with [{max: '0', min: '0'}] only if the value is zero, and the
    record raises no buy signal. *)
Theorem first_sample_stats chain rpc now h z :
  h !! name chain = None ->
  sampleOf rpc = Some z ->
  let first := {| chain := name chain;
                  priceWei := toString z;
                  high24h := toString z;
                  low24h := toString z;
                  timestamp := now |} in
  fetchChainGasPrice chain rpc now h
    = (<[name chain := [toString z]]> h, Normal (Some first)) /\
  appendHistory (default [] (h !! name chain)) (toString z) = [toString z] /\
  calculateStats [toString z] = Normal {| max := toString z; min := toString z |} /\
  (calculateStats [toString z] = calculateStats [] -> z = 0) /\
  detectBuySignal first = Normal {| isBuySignal := false; savingsPercent := 0 |}.
Proof.
  intros Hnone Hz first.
  assert (calculateStats [toString z] = Normal {| max := toString z; min := toString z |}) as Hs.
  { rewrite calculateStats_spec. change [toString z] with (toString <$> [z]).
    by rewrite mapM_StringToBigInt_toString. }
  split; [|split; [by rewrite Hnone|split; [done|split]]].
  - rewrite fetchChainGasPrice_spec, Hz, Hnone. cbn [default].
    change (appendHistory [] (toString z)) with [toString z]. cbn zeta. by rewrite Hs.
  - rewrite Hs. cbn [calculateStats]. intros [= E _]. by apply toString_zero.
  - unfold detectBuySignal, first. cbn [priceWei high24h low24h].
    rewrite BigInt_toString. cbn [mbind Completion_bind].
    rewrite quot_double, Z.leb_refl. by rewrite orb_true_r.
Qed.

Lemma first_sample_stats_witness :
  fetchChainGasPrice ethereum (RpcString "0x3b9aca00") 1700000000000 ∅
  = (<["ethereum" := ["1000000000"]]> ∅,
     Normal (Some {| chain := "ethereum";
                     priceWei := "1000000000";
                     high24h := "1000000000";
                     low24h := "1000000000";
                     timestamp := 1700000000000 |})).
Proof.
  apply (first_sample_stats ethereum (RpcString "0x3b9aca00") 1700000000000 ∅ 1000000000).
  - reflexivity.
  - reflexivity.
Defined.

(** C9. Every record of a successful fetch has its price between the
    reported low and high, as integers: the sample is appended to the
    history before the extrema are computed. *)
Theorem price_within_bounds chain rpc now h h' data :
  fetchChainGasPrice chain rpc now h = (h', Normal (Some data)) ->
  exists price low high,
    BigInt (priceWei data) = Normal price /\
    BigInt (low24h data) = Normal low /\
    BigInt (high24h data) = Normal high /\
    low <= price <= high.
Proof.
  rewrite fetchChainGasPrice_spec.
  destruct (sampleOf rpc) as [z|]; [|done]. cbn zeta.
  set (history := appendHistory _ _).
  destruct (calculateStats history) as [stats|msg] eqn:Hstats; [|done].
  intros [= _ <-]. cbn [priceWei high24h low24h].
  pose proof Hstats as Hspec. rewrite calculateStats_spec in Hspec.
  destruct (mapM StringToBigInt history) as [zs|] eqn:Hzs; [|done].
  apply mapM_Some in Hzs.
  assert (z ∈ zs) as Hin.
  { pose proof (appendHistory_last (default [] (h !! name chain)) (toString z)) as Hl.
    fold history in Hl. apply list_elem_of_lookup in Hl as [i Hi].
    destruct (Forall2_lookup_l _ _ _ _ _ Hzs Hi) as (y & Hy & Ey).
    rewrite StringToBigInt_toString in Ey. injection Ey as <-.
    apply list_elem_of_lookup. by exists i. }
  assert (zs <> []) as Hne by (intros ->; by apply elem_of_nil in Hin).
  apply mapM_Some in Hzs.
  destruct (calculateStats_extrema _ _ _ Hzs Hne Hstats) as (hi & lo & -> & -> & _ & _ & Hb).
  exists z, lo, hi. rewrite !BigInt_toString. repeat split; try done; by apply Hb.
Qed.

Lemma price_within_bounds_witness :
  exists price low high,
    BigInt "10" = Normal price /\ BigInt "5" = Normal low /\ BigInt "20" = Normal high /\
    low <= price <= high.
Proof.
  apply (price_within_bounds ethereum (RpcString "0xa") 7
           (<["ethereum" := ["5"; "20"]]> ∅)
           (<["ethereum" := ["5"; "20"; "10"]]> ∅)
           {| chain := "ethereum"; priceWei := "10"; high24h := "20"; low24h := "5";
              timestamp := 7 |}).
  vm_compute. reflexivity.
Defined.

(** ** One call of [fetchAllGasPrices] *)

Lemma historyWf_empty : historyWf ∅.
Proof. intros k l H. by rewrite lookup_empty in H. Qed.

Lemma appendHistory_Forall (P : string -> Prop) history v :
  Forall P history -> P v -> Forall P (appendHistory history v).
Proof.
  intros Hh Hv. rewrite appendHistory_slice. unfold slice_last.
  apply Forall_drop, Forall_app. split; [done|]. by constructor.
Qed.

Lemma historyWf_append h k z :
  historyWf h ->
  Forall (fun s => is_Some (StringToBigInt s))
    (appendHistory (default [] (h !! k)) (toString z)).
Proof.
  intros Hwf. apply appendHistory_Forall.
  - destruct (h !! k) as [l|] eqn:E; [by apply (Hwf k) | constructor].
  - rewrite StringToBigInt_toString. by eexists.
Qed.

Lemma calculateStats_parses prices :
  Forall (fun s => is_Some (StringToBigInt s)) prices ->
  exists stats,
    calculateStats prices = Normal stats /\
    is_Some (StringToBigInt (max stats)) /\ is_Some (StringToBigInt (min stats)).
Proof.
  intros H. rewrite calculateStats_spec.
  destruct (mapM StringToBigInt prices) as [zs|] eqn:E.
  - destruct zs; eexists; (split; [done|]); cbn [max min];
      rewrite ?StringToBigInt_toString; split; by eexists.
  - assert (is_Some (mapM StringToBigInt prices)) as [? ?] by by apply mapM_is_Some.
    congruence.
Qed.

(** On well-formed histories a fetch gives a record exactly when the
    source delivers a sample, and only the chain's own history changes. *)
Lemma fetchChainGasPrice_wf c rpc now h :
  historyWf h ->
  exists h' r,
    fetchChainGasPrice c rpc now h = (h', Normal r) /\
    historyWf h' /\
    match sampleOf rpc with
    | None => r = None /\ h' = h
    | Some z =>
        (exists d, r = Some d /\ chain d = name c /\ priceWei d = toString z /\
                   recordWf d) /\
        forall k, k <> name c -> h' !! k = h !! k
    end.
Proof.
  intros Hwf. rewrite fetchChainGasPrice_spec.
  destruct (sampleOf rpc) as [z|]; [|by eexists _, _].
  cbn zeta. pose proof (historyWf_append h (name c) z Hwf) as Hall.
  destruct (calculateStats_parses _ Hall) as (stats & Es & Hmax & Hmin). rewrite Es.
  eexists _, _. split; [done|]. split; [|split].
  - intros k l. destruct (decide (k = name c)) as [->|Hne].
    + rewrite lookup_insert_eq. by intros [= <-].
    + rewrite lookup_insert_ne by done. apply Hwf.
  - eexists. split; [done|]. split; [done|]. split; [done|].
    split; [|done]. cbn. rewrite StringToBigInt_toString. by eexists.
  - intros k Hne. by rewrite lookup_insert_ne.
Qed.

Lemma reachable_historyWf h : reachable h -> historyWf h.
Proof.
  induction 1 as [|h c rpc now _ IH]; [apply historyWf_empty|].
  by destruct (fetchChainGasPrice_wf c rpc now h IH) as (h' & r & -> & Hwf & _).
Qed.

Section FetchAll.

Variable enabledChains : list ChainConfig.
Variable env : FetchEnv.
Variable h0 : PriceHistory.

Lemma settle_inv i h slots :
  cycleInv enabledChains env h0 h slots ->
  exists h' slots',
    settle enabledChains env i slots h = (h', Normal slots') /\
    cycleInv enabledChains env h0 h' slots' /\
    (forall j, settled slots j -> settled slots' j) /\
    ((i < length enabledChains)%nat -> settled slots' i).
Proof.
  intros (Hwf & Hlen & Hok & Hq). unfold settle.
  destruct (enabledChains !! i) as [c|] eqn:Ec; cycle 1.
  { exists h, slots. split; [done|]. split; [done|]. split; [done|].
    intros Hi. apply lookup_ge_None in Ec. lia. }
  destruct (slots !! i) as [[r|]|] eqn:Es.
  - exists h, slots. split; [done|]. split; [done|]. split; [done|]. intros _. by exists r.
  - destruct (fetchChainGasPrice_wf c (rpcOf env i) (clockOf env i) h Hwf)
      as (h' & r & E & Hwf' & Hr).
    exists h', (<[i := Some r]> slots). stepM. rewrite E. split; [done|].
    assert (i < length slots)%nat as Hi by by eapply lookup_lt_Some.
    split; [|split].
    + split; [done|]. split; [by rewrite length_insert|]. split.
      * intros j slot. destruct (decide (j = i)) as [->|Hne].
        -- rewrite list_lookup_insert_eq by done. intros [= <-].
           exists c. split; [done|]. destruct (sampleOf (rpcOf env i)); by destruct Hr.
        -- rewrite list_lookup_insert_ne by done. apply Hok.
      * intros k Hk. rewrite <- (Hq k Hk).
        destruct (sampleOf (rpcOf env i)) as [z|] eqn:Ez.
        -- destruct Hr as [_ Hr]. apply Hr. intros ->.
           specialize (Hk i c Ec eq_refl). congruence.
        -- by destruct Hr as [_ ->].
    + intros j [r' Hj]. exists r'. rewrite list_lookup_insert_ne; [done|].
      intros ->. congruence.
    + intros _. exists r. by rewrite list_lookup_insert_eq.
  - apply lookup_lt_Some in Ec. apply lookup_ge_None in Es. lia.
Qed.

Lemma settleAll_inv order h slots :
  cycleInv enabledChains env h0 h slots ->
  exists h' slots',
    settleAll enabledChains env order slots h = (h', Normal slots') /\
    cycleInv enabledChains env h0 h' slots' /\
    (forall j, settled slots j -> settled slots' j) /\
    (forall j, j ∈ order -> (j < length enabledChains)%nat -> settled slots' j).
Proof.
  revert h slots. induction order as [|i order IH]; intros h slots Hinv.
  - exists h, slots. split; [done|]. split; [done|]. split; [done|].
    by intros j Hj%elem_of_nil.
  - destruct (settle_inv i h slots Hinv) as (h1 & slots1 & E1 & Hinv1 & Hmono1 & Hi1).
    destruct (IH h1 slots1 Hinv1) as (h2 & slots2 & E2 & Hinv2 & Hmono2 & Hin2).
    exists h2, slots2. cbn [settleAll]. stepM. rewrite E1, E2.
    split; [done|]. split; [done|]. split; [by auto|].
    intros j [->|Hj]%elem_of_cons Hlt; [by auto | by auto].
Qed.

End FetchAll.

Lemma omap_all_None {A B} (f : A -> option B) (l : list A) :
  Forall (fun x => f x = None) l -> omap f l = [].
Proof.
  induction 1 as [|x l E _ IH]; [done|]. cbn [omap list_omap]. by rewrite E.
Qed.

Lemma successes_all_fail enabledChains env :
  (forall i, (i < length enabledChains)%nat -> sampleOf (rpcOf env i) = None) ->
  successes enabledChains env = [].
Proof.
  intros Hall. apply omap_all_None, Forall_lookup. intros i [j c] Hi.
  rewrite list_lookup_imap in Hi.
  destruct (enabledChains !! i) as [c'|] eqn:Ec; [|done].
  injection Hi as <- <-. cbn [fst snd].
  rewrite Hall; [done|]. by eapply lookup_lt_Some.
Qed.

Lemma settleAll_never_throws enabledChains env order slots h :
  exists h' slots', settleAll enabledChains env order slots h = (h', Normal slots').
Proof.
  revert slots h. induction order as [|i order IH]; intros slots h; [by eexists _, _|].
  cbn [settleAll]. rewrite bind_run. unfold settle.
  destruct (enabledChains !! i) as [c|]; [destruct (slots !! i) as [[r|]|]|];
    try (rewrite ret_run; apply IH).
  rewrite bind_run, fetchChainGasPrice_spec.
  destruct (sampleOf (rpcOf env i)); cbv beta iota zeta; rewrite ret_run; apply IH.
Qed.

(** Whatever the stored histories are, [fetchAllGasPrices] returns. *)
Lemma fetchAllGasPrices_never_throws chains env h :
  exists h' batch, fetchAllGasPrices chains env h = (h', Normal batch).
Proof.
  unfold fetchAllGasPrices. cbn zeta. rewrite bind_run.
  destruct (settleAll_never_throws (filter (fun c => enabled c = true) chains) env
              (settleOrder env ++ seq 0 (length (filter (fun c => enabled c = true) chains)))
              (replicate (length (filter (fun c => enabled c = true) chains)) None) h)
    as (h' & slots & ->).
  by eexists _, _.
Qed.

(** What one call of [fetchAllGasPrices] does on well-formed histories. *)
Lemma fetchAllGasPrices_cycle chains env h :
  historyWf h ->
  let enabledChains := filter (fun c => enabled c = true) chains in
  exists h' batch,
    fetchAllGasPrices chains env h = (h', Normal batch) /\
    historyWf h' /\
    Forall recordWf batch /\
    (fun d => (chain d, priceWei d)) <$> batch = successes enabledChains env /\
    (forall k, quiet enabledChains env k -> h' !! k = h !! k).
Proof.
  intros Hwf enabledChains. set (n := length enabledChains).
  assert (cycleInv enabledChains env h h (replicate n None)) as Hinv.
  { split; [done|]. split; [apply length_replicate|]. split; [|done].
    intros i slot [-> _]%lookup_replicate. exact I. }
  destruct (settleAll_inv enabledChains env h (settleOrder env ++ seq 0 n) h _ Hinv)
    as (h' & slots & E & (Hwf' & Hlen & Hok & Hq) & _ & Hset).
  exists h', (omap (fun r : Slot => r ≫= id) slots).
  split.
  { unfold fetchAllGasPrices. fold enabledChains. fold n. stepM. by rewrite E. }
  split; [done|]. split; [|split; [|done]].
  - apply Forall_forall. intros d Hd. apply list_elem_of_omap in Hd as (slot & Hin & Hd).
    apply list_elem_of_lookup in Hin as [i Hi].
    destruct slot as [[d'|]|]; try done. cbn in Hd. injection Hd as ->.
    destruct (Hok i _ Hi) as (c & _ & Hspec).
    destruct (sampleOf (rpcOf env i)); [|done].
    by destruct Hspec as (d' & [= <-] & _ & _ & Hd').
  - rewrite list_fmap_omap. unfold successes. apply list_omap_ext.
    apply Forall2_same_length_lookup_2; [by rewrite length_imap|].
    intros i slot [j c] Hslot Hi. rewrite list_lookup_imap in Hi.
    destruct (enabledChains !! i) as [c'|] eqn:Ec; [|done].
    injection Hi as <- <-. cbn [fst snd].
    destruct (Hset i) as [r Hr].
    { apply elem_of_app. right. apply elem_of_seq. apply lookup_lt_Some in Ec. lia. }
    { by eapply lookup_lt_Some. }
    rewrite Hr in Hslot. injection Hslot as <-.
    destruct (Hok i (Some r) Hr) as (c'' & Ec'' & Hspec).
    rewrite Ec in Ec''. injection Ec'' as <-.
    destruct (sampleOf (rpcOf env i)) as [z|].
    + destruct Hspec as (d & -> & Hc & Hp & _). cbn. by rewrite Hc, Hp.
    + by subst r.
Qed.

(** C6. A call of [fetchAllGasPrices] absorbs the failure of any of its
    sources. It never throws, whatever the stored histories are. On
    well-formed histories the batch holds, in the order of the enabled
    chains, one record for each source whose fetch succeeds and none for the
    others; the history of a chain none of whose fetches succeeds is left as
    it was; and when every source fails the batch is empty and no history
    changes. *)
Theorem fetchAllGasPrices_tolerates_failures chains env h :
  historyWf h ->
  let enabledChains := filter (fun c => enabled c = true) chains in
  (forall h0, exists h1 batch0, fetchAllGasPrices chains env h0 = (h1, Normal batch0)) /\
  exists h' batch,
    fetchAllGasPrices chains env h = (h', Normal batch) /\
    historyWf h' /\
    (fun d => (chain d, priceWei d)) <$> batch = successes enabledChains env /\
    (forall k, quiet enabledChains env k -> h' !! k = h !! k) /\
    ((forall i, (i < length enabledChains)%nat -> sampleOf (rpcOf env i) = None) ->
     batch = [] /\ h' = h).
Proof.
  intros Hwf enabledChains.
  split; [intros h0; apply fetchAllGasPrices_never_throws|].
  destruct (fetchAllGasPrices_cycle chains env h Hwf) as (h' & batch & E & Hwf' & _ & Hb & Hq).
  exists h', batch. split; [done|]. split; [done|]. split; [done|]. split; [done|].
  intros Hall. split.
  - fold enabledChains in Hb. rewrite (successes_all_fail _ _ Hall) in Hb.
    by apply fmap_nil_inv in Hb.
  - apply map_eq. intros k. apply Hq. intros i c Ec _. apply Hall. by eapply lookup_lt_Some.
Qed.

Lemma fetchAllGasPrices_tolerates_failures_witness :
  exists h' batch,
    fetchAllGasPrices threeChains failingB historyB = (h', Normal batch) /\
    (fun d => (chain d, priceWei d)) <$> batch = [("A", "16"); ("C", "32")] /\
    h' !! "B" = Some ["7"; "9"].
Proof.
  assert (historyWf historyB) as Hwf.
  { intros k l. unfold historyB. destruct (decide (k = "B")) as [->|Hne].
    - rewrite lookup_insert_eq. intros [= <-]. repeat constructor; by eexists.
    - rewrite lookup_insert_ne by done. by rewrite lookup_empty. }
  destruct (fetchAllGasPrices_tolerates_failures threeChains failingB historyB Hwf)
    as (_ & h' & batch & E & _ & Hb & Hq & _).
  exists h', batch. split; [exact E|]. split; [exact Hb|].
  rewrite Hq; [reflexivity|].
  intros i c Hi Hc. destruct i as [|[|[|i]]]; cbn in Hi; try discriminate Hi;
    injection Hi as <-; try discriminate Hc. reflexivity.
Defined.

Example fetchAllGasPrices_three :
  fetchAllGasPrices threeChains failingB historyB =
    (<["A" := ["16"]]> (<["C" := ["32"]]> historyB),
     Normal [ {| chain := "A"; priceWei := "16"; high24h := "16"; low24h := "16";
                 timestamp := 1700000000000 |};
              {| chain := "C"; priceWei := "32"; high24h := "32"; low24h := "32";
                 timestamp := 1700000000002 |} ]).
Proof. vm_compute. reflexivity. Qed.

(** ** The publisher *)

Lemma mapM_BigInt (l : list GasPriceData) :
  mapM (fun d => BigInt (priceWei d)) l
  = ofOption SyntaxError (mapM (fun d => StringToBigInt (priceWei d)) l).
Proof.
  induction l as [|d l IH]; [done|].
  cbn [mapM]. rewrite IH. clear IH. unfold BigInt.
  destruct (StringToBigInt (priceWei d)); [|done].
  cbn. destruct (mapM _ l); reflexivity.
Qed.

Lemma publishBatchUpdate_spec config sink dataArray submitted :
  publishBatchUpdate config sink dataArray submitted =
    match nonZero dataArray with
    | [] => (submitted, Normal None)
    | validData =>
        match mapM (fun d => StringToBigInt (priceWei d)) validData with
        | Some prices =>
            if forallb inU128 prices then
              (submitted ++ [batchTx config (chain <$> validData) prices],
               Normal match sink (length submitted)
                              (batchTx config (chain <$> validData) prices) with
                      | Normal digest => Some digest
                      | Throw _ => None
                      end)
            else (submitted, Normal None)
        | None => (submitted, Normal None)
        end
    end.
Proof.
  unfold publishBatchUpdate. fold (nonZero dataArray).
  destruct (nonZero dataArray) as [|d validData] eqn:E; [done|].
  cbn [length Nat.eqb]. rewrite mapM_BigInt.
  destruct (mapM _ (d :: validData)) as [prices|]; [|done].
  unfold pure_vector_u128, signAndExecuteTransaction. stepM.
  destruct (forallb inU128 prices); [|done].
  unfold batchTx. by destruct (sink _ _).
Qed.

Lemma nonZero_all_zero dataArray :
  Forall (fun d => priceWei d = "0") dataArray -> nonZero dataArray = [].
Proof.
  induction 1 as [|d l E _ IH]; [done|].
  unfold nonZero in *. cbn [List.filter]. by rewrite E, IH.
Qed.

Lemma nonZero_Forall dataArray :
  Forall (fun d => priceWei d <> "0") (nonZero dataArray).
Proof.
  apply Forall_forall. intros d Hd%list_elem_of_In. unfold nonZero in Hd.
  apply filter_In in Hd as [_ Hd]. apply negb_true_iff in Hd.
  by apply String.eqb_neq.
Qed.

(** C10. The publisher drops zero prices. [publishSingleUpdate] on a record
    whose [priceWei] is ['0'] returns [null] and hands nothing to the
    client. [publishBatchUpdate] keeps only the records whose [priceWei] is
    not ['0']: when all are zero it returns [null] and hands nothing over,
    and otherwise whatever it hands over is the one transaction built from
    the kept records alone. *)
Theorem publisher_drops_zero_prices config sink submitted :
  (forall data,
     priceWei data = "0" ->
     publishSingleUpdate config sink data submitted = (submitted, Normal None)) /\
  (forall dataArray,
     Forall (fun d => priceWei d = "0") dataArray ->
     publishBatchUpdate config sink dataArray submitted = (submitted, Normal None)) /\
  (forall dataArray,
     Forall (fun d => priceWei d <> "0") (nonZero dataArray) /\
     (publishBatchUpdate config sink dataArray submitted = (submitted, Normal None) \/
      exists prices r,
        mapM (fun d => StringToBigInt (priceWei d)) (nonZero dataArray) = Some prices /\
        publishBatchUpdate config sink dataArray submitted
        = (submitted ++ [batchTx config (chain <$> nonZero dataArray) prices], Normal r))).
Proof.
  split; [|split].
  - intros data E. unfold publishSingleUpdate. by rewrite E.
  - intros dataArray Hall. rewrite publishBatchUpdate_spec.
    by rewrite (nonZero_all_zero _ Hall).
  - intros dataArray. split; [apply nonZero_Forall|].
    rewrite publishBatchUpdate_spec.
    destruct (nonZero dataArray) as [|d validData]; [by left|]. cbn zeta.
    destruct (mapM _ (d :: validData)) as [prices|]; [|by left].
    destruct (forallb inU128 prices); [|by left].
    right. by eexists _, _.
Qed.

Lemma publisher_drops_zero_prices_witness :
  publishSingleUpdate testConfig acceptAll (sample 0 12 0) [] = ([], Normal None) /\
  publishBatchUpdate testConfig acceptAll [sample 0 12 0; sample 0 0 0] []
  = ([], Normal None).
Proof.
  destruct (publisher_drops_zero_prices testConfig acceptAll []) as (H1 & H2 & _).
  split.
  - apply H1. reflexivity.
  - apply H2. repeat constructor.
Defined.

Example publishBatchUpdate_mixed :
  publishBatchUpdate testConfig acceptAll [sample 0 12 0; sample 16 16 16; sample 32 40 8] []
  = ([batchTx testConfig ["ethereum"; "ethereum"] [16; 32]], Normal (Some "digest")).
Proof. vm_compute. reflexivity. Qed.

Example publishSingleUpdate_nonzero :
  publishSingleUpdate testConfig acceptAll (sample 16 20 4) []
  = ([ {| target := "0x2a::oracle::update_gas_price";
          arguments := [ ArgObject "0x2c"; ArgObject "0x2b"; ArgObject "0x6";
                         ArgString "ethereum"; ArgU128 16; ArgU128 20; ArgU128 4 ] |} ],
     Normal (Some "digest")).
Proof. vm_compute. reflexivity. Qed.

(** ** Configuration *)

Lemma validateConfig_valid config :
  valid (validateConfig config) = true <->
  privateKey (sui config) <> "" /\
  oracleObjectId (sui config) <> "0x0" /\
  adminCapId (sui config) <> "0x0".
Proof.
  unfold validateConfig, pushIf.
  destruct (privateKey (sui config)) as [|c r];
    destruct (String.eqb_spec (packageId (sui config)) "0x0");
    destruct (String.eqb_spec (oracleObjectId (sui config)) "0x0");
    destruct (String.eqb_spec (adminCapId (sui config)) "0x0");
    vm_compute; split; try discriminate; try tauto;
    intros _; repeat split; try discriminate; assumption.
Qed.

Lemma validateConfig_missing config :
  missingCredential config -> valid (validateConfig config) = false.
Proof.
  intros H. apply not_true_is_false. intros Hv%validateConfig_valid.
  unfold missingCredential in H. tauto.
Qed.

Lemma envOr_unset env key fallback :
  env !! key = None -> envOr env key fallback = fallback.
Proof. unfold envOr. by intros ->. Qed.

Lemma main_entered env ext config st :
  main env ext = LoopEntered config st ->
  config = loadConfig env /\ valid (validateConfig config) = true.
Proof.
  unfold main.
  destruct (valid (validateConfig (loadConfig env))) eqn:Hv; [|discriminate].
  cbn [negb]. destruct (newSuiPublisher _ _); [|discriminate].
  destruct (_ && _); [discriminate|].
  intros [= <- _]. done.
Qed.

(** C8. Configuration errors are fatal before the loop. A configuration
    that lacks the private key, the oracle object id or the admin cap id is
    reported invalid, and [main] then exits with code 1 without running a
    cycle or installing the timer; this is what happens when one of the
    three variables is unset. The loop is entered only with a configuration
    that validation accepts. *)
Theorem configuration_errors_are_fatal (env : ProcessEnv) (ext : Startup) :
  (forall config, missingCredential config -> valid (validateConfig config) = false) /\
  (missingCredential (loadConfig env) -> main env ext = Exited 1) /\
  (env !! "SUI_PRIVATE_KEY" = None \/ env !! "ORACLE_OBJECT_ID" = None \/
   env !! "ADMIN_CAP_ID" = None -> main env ext = Exited 1) /\
  (forall config st,
     main env ext = LoopEntered config st ->
     config = loadConfig env /\
     valid (validateConfig config) = true /\
     ~ missingCredential config).
Proof.
  assert (missingCredential (loadConfig env) -> main env ext = Exited 1) as Hexit.
  { intros H. unfold main. by rewrite (validateConfig_missing _ H). }
  split; [exact validateConfig_missing|]. split; [exact Hexit|]. split.
  - intros H. apply Hexit. unfold missingCredential, loadConfig. cbn [sui privateKey oracleObjectId adminCapId].
    destruct H as [H|[H|H]]; rewrite (envOr_unset _ _ _ H); auto.
  - intros config st H. destruct (main_entered _ _ _ _ H) as [-> Hv].
    split; [done|]. split; [done|].
    intros Hm. rewrite (validateConfig_missing _ Hm) in Hv. discriminate.
Qed.

Lemma configuration_errors_are_fatal_witness :
  main (delete "ADMIN_CAP_ID" fullEnv) startupOk = Exited 1.
Proof.
  apply (proj1 (proj2 (proj2 (configuration_errors_are_fatal
                                (delete "ADMIN_CAP_ID" fullEnv) startupOk)))).
  right. right. vm_compute. reflexivity.
Defined.

Example main_enters_loop :
  exists st, main fullEnv startupOk = LoopEntered (loadConfig fullEnv) st /\
             updateCount st = 1%nat /\ errorCount st = 0%nat /\
             length (submitted (world st)) = 1%nat.
Proof.
  eexists. split; [vm_compute; reflexivity|].
  repeat split; vm_compute; reflexivity.
Qed.

Example validateConfig_demo_mode :
  validateConfig (loadConfig (delete "ORACLE_PACKAGE_ID" fullEnv))
  = {| valid := true; errors := ["ORACLE_PACKAGE_ID not set (will run in demo mode)"] |}.
Proof. vm_compute. reflexivity. Qed.

Example validateConfig_empty_env :
  validateConfig (loadConfig ∅)
  = {| valid := false;
       errors := [ "SUI_PRIVATE_KEY is required";
                   "ORACLE_PACKAGE_ID not set (will run in demo mode)";
                   "ORACLE_OBJECT_ID not set";
                   "ADMIN_CAP_ID not set" ] |}.
Proof. vm_compute. reflexivity. Qed.

(** ** The update cycle and its counters *)

Lemma zoom_world_counters {A} (m : M World A) st :
  counters (fst (zoom world setWorld m st)) = counters st.
Proof. unfold zoom. by destruct (m (world st)). Qed.

Lemma forEach_counters {A} (f : A -> M LoopState unit) l st :
  (forall x s, counters (fst (f x s)) = counters s) ->
  counters (fst (forEach l f st)) = counters st.
Proof.
  intros Hf. revert st. induction l as [|x l IH]; intros st; [done|].
  cbn [forEach]. stepM. specialize (Hf x st).
  destruct (f x st) as [s1 [[]|e]]; cbn [fst] in *; [|done].
  by rewrite IH.
Qed.

Lemma logPrice_counters price st : counters (fst (logPrice price st)) = counters st.
Proof.
  unfold logPrice. stepM. destruct (detectBuySignal price); [|done].
  by destruct (weiToGwei _).
Qed.

Lemma publishPrices_counters config cs prices st :
  counters (fst (publishPrices config cs prices st)) = counters st.
Proof.
  unfold publishPrices. destruct (negb _); [|done].
  destruct (lengthGe _ _).
  - pose proof (zoom_world_counters (publishBatch cs prices) st) as H.
    unfold mbind, M_bind. by destruct (zoom world setWorld (publishBatch cs prices) st) as [s [r|e]].
  - apply forEach_counters. intros x s.
    pose proof (zoom_world_counters (publishSingle cs x) s) as H.
    unfold mbind, M_bind. by destruct (zoom world setWorld (publishSingle cs x) s) as [s' [r|e]].
Qed.

Lemma afterFetch_counters config cs prices st :
  counters (fst (afterFetch config cs prices st)) = counters st.
Proof.
  unfold afterFetch. unfold mbind, M_bind.
  pose proof (forEach_counters logPrice prices st logPrice_counters) as H1.
  destruct (forEach prices logPrice st) as [s1 [[]|e]]; cbn [fst] in *; [|done].
  by rewrite publishPrices_counters.
Qed.

(** The effect of one cycle on the counters, whatever the components do. *)
Lemma runUpdateCycle_counters config cs st :
  let st' := fst (runUpdateCycle config cs st) in
  match fetchAll cs (chains config) (world st) with
  | (_, Throw _) => counters st' = (updateCount st, S (errorCount st))
  | (_, Normal []) => counters st' = counters st
  | (w, Normal prices) =>
      match snd (afterFetch config cs prices (setWorld w st)) with
      | Normal _ => counters st' = (S (updateCount st), errorCount st)
      | Throw _ => counters st' = (updateCount st, S (errorCount st))
      end
  end.
Proof.
  unfold runUpdateCycle, runUpdateCycle_try, tryCatch. cbn zeta.
  rewrite bind_run, zoom_run.
  destruct (fetchAll cs (chains config) (world st)) as [w [prices|msg]]; [|done].
  destruct prices as [|d prices]; [done|].
  cbn [length Nat.eqb].
  pose proof (afterFetch_counters config cs (d :: prices) (setWorld w st)) as Hc.
  unfold afterFetch in *. unfold mbind, M_bind in *.
  destruct (forEach (d :: prices) logPrice (setWorld w st)) as [s1 [[]|e]]; cbn [fst snd] in *.
  - destruct (publishPrices config cs (d :: prices) s1) as [s2 [[]|e]]; cbn [fst snd] in *.
    + unfold modify. cbn [fst]. unfold counters in *. cbn in *. congruence.
    + unfold modify. cbn [fst]. unfold counters in *. cbn in *. congruence.
  - unfold modify. cbn [fst]. unfold counters in *. cbn in *. congruence.
Qed.

Lemma runUpdateCycle_monotone config cs st :
  (updateCount st <= updateCount (fst (runUpdateCycle config cs st)))%nat /\
  (errorCount st <= errorCount (fst (runUpdateCycle config cs st)))%nat.
Proof.
  pose proof (runUpdateCycle_counters config cs st) as H. cbn zeta in H.
  destruct (fetchAll cs (chains config) (world st)) as [w [[|d prices]|msg]];
    [| destruct (snd _) |]; injection H as -> ->; lia.
Qed.

Lemma runCycles_monotone config css st :
  (updateCount st <= updateCount (runCycles config css st))%nat /\
  (errorCount st <= errorCount (runCycles config css st))%nat.
Proof.
  revert st. induction css as [|cs css IH]; intros st; [done|].
  change (runCycles config (cs :: css) st)
    with (runCycles config css (fst (runUpdateCycle config cs st))).
  destruct (IH (fst (runUpdateCycle config cs st))).
  destruct (runUpdateCycle_monotone config cs st). lia.
Qed.

Lemma tryCatch_null {S A} (body : M S (option A)) (s : S) :
  exists s' r, tryCatch body (fun _ => mret None) s = (s', Normal r).
Proof.
  unfold tryCatch. destruct (body s) as [s' [r|e]]; by eexists _, _.
Qed.

Lemma publishSingleUpdate_normal config sink data submitted :
  exists submitted' r,
    publishSingleUpdate config sink data submitted = (submitted', Normal r).
Proof.
  unfold publishSingleUpdate. destruct (String.eqb _ _); [by eexists _, _|].
  apply tryCatch_null.
Qed.

Lemma publishBatchUpdate_normal config sink dataArray submitted :
  exists submitted' r,
    publishBatchUpdate config sink dataArray submitted = (submitted', Normal r).
Proof.
  unfold publishBatchUpdate. destruct (_ =? _)%nat; [by eexists _, _|].
  apply tryCatch_null.
Qed.

Lemma logPrice_wf price st : recordWf price -> logPrice price st = (st, Normal tt).
Proof.
  intros ([p Hp] & [hi Hhi] & [lo Hlo]).
  unfold logPrice, detectBuySignal, weiToGwei, BigInt. rewrite Hp, Hhi, Hlo. stepM.
  by destruct (_ || _).
Qed.

Lemma forEach_logPrice prices st :
  Forall recordWf prices -> forEach prices logPrice st = (st, Normal tt).
Proof.
  induction 1 as [|d prices Hd _ IH]; [done|].
  cbn [forEach]. rewrite bind_run. by rewrite (logPrice_wf _ _ Hd).
Qed.

(** With the bot's publisher the publishing block never throws and only
    adds to the submitted transactions. *)
Lemma publishPrices_bot config env sink prices st :
  exists st',
    publishPrices config (botComponents config env sink) prices st = (st', Normal tt) /\
    counters st' = counters st /\
    priceHistory (world st') = priceHistory (world st).
Proof.
  unfold publishPrices. destruct (negb _); [|by eexists].
  destruct (lengthGe _ _).
  - cbn [publishBatch botComponents]. rewrite bind_run, !zoom_run.
    destruct (publishBatchUpdate_normal config sink prices (submitted (world st)))
      as (l & r & ->).
    by eexists.
  - cbn [publishSingle botComponents].
    revert st. induction prices as [|d prices IH]; intros st; [by eexists|].
    cbn [forEach]. rewrite !bind_run, !zoom_run.
    destruct (publishSingleUpdate_normal config sink d (submitted (world st)))
      as (l & r & ->).
    rewrite ret_run.
    destruct (IH (setWorld (setSubmitted l (world st)) st)) as (st' & -> & Hc & Hh).
    by eexists.
Qed.

(** One cycle of the bot itself on well-formed histories: nothing is
    thrown out of the cycle, whichever sources fail. *)
Lemma runUpdateCycle_bot config env sink st :
  historyWf (priceHistory (world st)) ->
  exists st',
    runUpdateCycle config (botComponents config env sink) st = (st', Normal tt) /\
    historyWf (priceHistory (world st')) /\
    errorCount st' = errorCount st /\
    updateCount st' =
      match successes (filter (fun c => enabled c = true) (chains config)) env with
      | [] => updateCount st
      | _ => S (updateCount st)
      end.
Proof.
  intros Hwf.
  destruct (fetchAllGasPrices_cycle (chains config) env _ Hwf)
    as (h' & batch & E & Hwf' & Hrec & Hb & _). cbn zeta in Hb.
  unfold runUpdateCycle, runUpdateCycle_try, tryCatch.
  rewrite bind_run. cbn [fetchAll botComponents]. rewrite !zoom_run, E.
  destruct batch as [|d batch].
  - rewrite <- Hb. eexists. split; [reflexivity|]. split; [exact Hwf'|]. split; reflexivity.
  - rewrite <- Hb. cbn [length Nat.eqb fmap list_fmap].
    rewrite bind_run, (forEach_logPrice _ _ Hrec), bind_run.
    destruct (publishPrices_bot config env sink (d :: batch)
                (setWorld (setHistory h' (world st)) st)) as (st' & -> & Hc & Hh).
    eexists. split; [reflexivity|]. unfold counters in Hc. injection Hc as Hu He.
    cbn in *. rewrite Hh. split; [exact Hwf'|]. split; [exact He | by rewrite Hu].
Qed.

(** C7. Counter semantics of one cycle, whatever the fetcher and the
    publisher do: [updateCount] goes up by one exactly when the batch is
    non-empty and nothing is thrown inside [try]; [errorCount] goes up by
    one exactly when something is thrown there; an empty batch changes
    neither. Over any run of cycles neither counter decreases. With the
    bot's own fetcher and publisher, failing sources never raise
    [errorCount]: it stays as it was, and [updateCount] goes up exactly when
    at least one source delivers. *)
Theorem update_loop_counters config st :
  (forall cs,
     let st' := fst (runUpdateCycle config cs st) in
     match fetchAll cs (chains config) (world st) with
     | (_, Throw _) =>
         updateCount st' = updateCount st /\ errorCount st' = S (errorCount st)
     | (_, Normal []) =>
         updateCount st' = updateCount st /\ errorCount st' = errorCount st
     | (w, Normal prices) =>
         match snd (afterFetch config cs prices (setWorld w st)) with
         | Normal _ =>
             updateCount st' = S (updateCount st) /\ errorCount st' = errorCount st
         | Throw _ =>
             updateCount st' = updateCount st /\ errorCount st' = S (errorCount st)
         end
     end) /\
  (forall css,
     (updateCount st <= updateCount (runCycles config css st))%nat /\
     (errorCount st <= errorCount (runCycles config css st))%nat) /\
  (forall env sink,
     historyWf (priceHistory (world st)) ->
     let st' := fst (runUpdateCycle config (botComponents config env sink) st) in
     errorCount st' = errorCount st /\
     updateCount st' =
       match successes (filter (fun c => enabled c = true) (chains config)) env with
       | [] => updateCount st
       | _ => S (updateCount st)
       end).
Proof.
  split; [|split].
  - intros cs. pose proof (runUpdateCycle_counters config cs st) as H. cbn zeta in *.
    destruct (fetchAll cs (chains config) (world st)) as [w [[|d prices]|msg]];
      [| destruct (snd _) |]; by injection H as -> ->.
  - intros css. apply runCycles_monotone.
  - intros env sink Hwf.
    destruct (runUpdateCycle_bot config env sink st Hwf) as (st' & -> & _ & He & Hu).
    by split.
Qed.

Lemma update_loop_counters_witness :
  let st' := fst (runUpdateCycle testConfig (botComponents testConfig failingB acceptAll)
                    initialState) in
  errorCount st' = 0%nat /\ updateCount st' = 1%nat.
Proof.
  apply (proj2 (proj2 (update_loop_counters testConfig initialState)) failingB acceptAll).
  apply historyWf_empty.
Defined.

Example cycle_all_sources_fail :
  counters (fst (runUpdateCycle testConfig (botComponents testConfig allFail acceptAll)
                   initialState)) = (0%nat, 0%nat).
Proof. vm_compute. reflexivity. Qed.

Example cycle_fetch_throws :
  counters (fst (runUpdateCycle testConfig throwingFetch initialState)) = (0%nat, 1%nat).
Proof. vm_compute. reflexivity. Qed.

Example cycle_publisher_throws :
  counters (fst (runUpdateCycle testConfig (throwingPublisher [sample 16 20 4]) initialState))
  = (0%nat, 1%nat).
Proof. vm_compute. reflexivity. Qed.

(** ** The interval timer *)

Lemma started_fold trace s :
  started (fold_left onEvent trace s) = (started s + ticks trace)%nat.
Proof.
  revert s. induction trace as [|e trace IH]; intros s.
  - unfold ticks. cbn. lia.
  - cbn [fold_left]. rewrite IH. unfold ticks. destruct e; cbn; lia.
Qed.

Lemma inFlight_fold trace s :
  (inFlight s + ticks trace
   <= inFlight (fold_left onEvent trace s) + settlements trace)%nat.
Proof.
  revert s. induction trace as [|e trace IH]; intros s.
  - unfold ticks, settlements. cbn. lia.
  - cbn [fold_left]. specialize (IH (onEvent s e)).
    unfold ticks, settlements in *. destruct e; cbn in *; lia.
Qed.

(** C5, as the code has it. Every expiry of the interval timer starts a
    cycle at once, whether or not earlier cycles are still in flight: no
    tick is skipped and none is queued. After any trace as many cycles were
    started as the timer fired; a started cycle stays in flight until a
    settlement takes it away, so the cycles in flight are at least the
    ticks less the settlements; and one more tick always adds one cycle in
    flight. *)
Theorem every_tick_starts_a_cycle (trace : list Event) :
  started (runEvents trace) = ticks trace /\
  (ticks trace <= inFlight (runEvents trace) + settlements trace)%nat /\
  inFlight (onEvent (runEvents trace) TimerFires) = S (inFlight (runEvents trace)) /\
  started (onEvent (runEvents trace) TimerFires) = S (started (runEvents trace)) /\
  runEvents (trace ++ [TimerFires]) = onEvent (runEvents trace) TimerFires.
Proof.
  split; [|split; [|split; [done|split; [done|]]]].
  - unfold runEvents. by rewrite started_fold.
  - apply (inFlight_fold trace idle).
  - unfold runEvents. by rewrite fold_left_app.
Qed.

(** C5, as stated, fails: a tick that fires while the cycle of the previous
    tick is still in flight starts a second, concurrent cycle. *)
Lemma at_most_one_cycle_counterexample :
  runEvents [TimerFires; TimerFires] = {| inFlight := 2; started := 2 |} /\
  ~ (forall trace, (inFlight (runEvents trace) <= 1)%nat).
Proof.
  split; [reflexivity|].
  intros H. specialize (H [TimerFires; TimerFires]). cbn in H. lia.
Qed.

(** ** What every reachable history looks like *)

(** X1. In every history the process can hold, each stored window is
    non-empty, holds at most [MAX_HISTORY_SIZE] entries, and every entry is
    the decimal text of an integer as [toString] prints it. *)
Theorem reachable_windows h k l :
  reachable h ->
  h !! k = Some l ->
  (1 <= length l <= MAX_HISTORY_SIZE)%nat /\
  Forall (fun s => exists z, s = toString z) l.
Proof.
  intros Hr. revert k l. induction Hr as [|h c rpc now Hr IH]; intros k l.
  - by rewrite lookup_empty.
  - rewrite fetchChainGasPrice_spec.
    destruct (sampleOf rpc) as [z|]; cbn [fst]; [|apply IH].
    destruct (decide (k = name c)) as [->|Hne]; [|rewrite lookup_insert_ne by done; apply IH].
    rewrite lookup_insert_eq. intros [= <-].
    pose proof MAX_HISTORY_SIZE_pos as Hpos. split.
    + rewrite appendHistory_slice, slice_last_length, length_app. cbn [length]. lia.
    + apply appendHistory_Forall; [|by eexists].
      destruct (h !! name c) as [old|] eqn:E; [|constructor]. by apply (IH _ _ E).
Qed.

Lemma reachable_windows_witness :
  (1 <= length ["16"; "32"] <= MAX_HISTORY_SIZE)%nat /\
  Forall (fun s => exists z, s = toString z) ["16"; "32"].
Proof.
  apply (reachable_windows
           (fst (fetchChainGasPrice ethereum (RpcString "0x20") 2
                   (fst (fetchChainGasPrice ethereum (RpcString "0x10") 1 ∅))))
           "ethereum").
  - apply reachable_fetch, reachable_fetch, reachable_start.
  - vm_compute. reflexivity.
Defined.

(** X2. A fetch never throws and is local to its chain: the histories of
    all other chains stay as they are; a failed fetch changes nothing and
    gives [null]; a successful one appends the decimal text of the sample to
    the chain's own window; and the record depends on the stored histories
    only through that window. *)
Theorem fetchChainGasPrice_local c rpc now h :
  (exists r, snd (fetchChainGasPrice c rpc now h) = Normal r) /\
  (forall k, k <> name c -> fst (fetchChainGasPrice c rpc now h) !! k = h !! k) /\
  (sampleOf rpc = None -> fetchChainGasPrice c rpc now h = (h, Normal None)) /\
  (forall z, sampleOf rpc = Some z ->
     fst (fetchChainGasPrice c rpc now h) !! name c
     = Some (appendHistory (default [] (h !! name c)) (toString z))) /\
  (forall h2, h2 !! name c = h !! name c ->
     snd (fetchChainGasPrice c rpc now h2) = snd (fetchChainGasPrice c rpc now h)).
Proof.
  rewrite fetchChainGasPrice_spec. repeat split.
  - destruct (sampleOf rpc); by eexists.
  - intros k Hne. destruct (sampleOf rpc); [|done]. cbn. by rewrite lookup_insert_ne.
  - by intros ->.
  - intros z ->. cbn. by rewrite lookup_insert_eq.
  - intros h2 E. rewrite fetchChainGasPrice_spec. destruct (sampleOf rpc); [|done].
    cbn. by rewrite E.
Qed.

(** X3. The price text of a fetched record is canonical, so the
    publisher's test [priceWei === '0'] catches every zero price that
    comes from the fetcher, however the node spelled it: the record's
    [priceWei] reads back as the integer the node answered, it is ['0']
    exactly when that integer is zero, and then [publishSingleUpdate]
    returns [null] and hands nothing to the client. *)
Theorem fetched_zero_is_dropped c rpc now h h' d :
  fetchChainGasPrice c rpc now h = (h', Normal (Some d)) ->
  exists z,
    sampleOf rpc = Some z /\
    priceWei d = toString z /\
    BigInt (priceWei d) = Normal z /\
    (priceWei d = "0" <-> z = 0) /\
    (z = 0 -> forall config sink submitted,
       publishSingleUpdate config sink d submitted = (submitted, Normal None)).
Proof.
  rewrite fetchChainGasPrice_spec.
  destruct (sampleOf rpc) as [z|]; [|done]. cbn zeta.
  destruct (calculateStats _) as [stats|]; [|done]. intros [= _ <-].
  exists z. cbn [priceWei]. split; [done|]. split; [done|].
  split; [apply BigInt_toString|]. split; [apply toString_zero|].
  intros -> config sink submitted. unfold publishSingleUpdate. by cbn [priceWei].
Qed.

Lemma fetched_zero_is_dropped_witness :
  exists z,
    sampleOf (RpcString " 0x000 ") = Some z /\
    "0" = toString z /\
    BigInt "0" = Normal z /\
    ("0" = "0" <-> z = 0) /\
    (z = 0 -> forall config sink submitted,
       publishSingleUpdate config sink
         {| chain := "ethereum"; priceWei := "0"; high24h := "9"; low24h := "0";
            timestamp := 3 |} submitted = (submitted, Normal None)).
Proof.
  apply (fetched_zero_is_dropped ethereum (RpcString " 0x000 ") 3
           (<["ethereum" := ["9"]]> ∅) (<["ethereum" := ["9"; "0"]]> ∅)
           {| chain := "ethereum"; priceWei := "0"; high24h := "9"; low24h := "0";
              timestamp := 3 |}).
  vm_compute. reflexivity.
Defined.

(** ** More on the statistics *)

Lemma parsed_elem_of (prices : list string) (zs : list Z) (z : Z) :
  Forall2 (fun s y => StringToBigInt s = Some y) prices zs ->
  z ∈ zs <-> exists s, s ∈ prices /\ StringToBigInt s = Some z.
Proof.
  intros H. split.
  - intros [i Hi]%list_elem_of_lookup.
    destruct (Forall2_lookup_r _ _ _ _ _ H Hi) as (s & Hs & E).
    exists s. split; [|done]. apply list_elem_of_lookup. by exists i.
  - intros (s & [i Hi]%list_elem_of_lookup & E).
    destruct (Forall2_lookup_l _ _ _ _ _ H Hi) as (y & Hy & E').
    apply list_elem_of_lookup. exists i. congruence.
Qed.

Lemma fold_extrema z zs :
  fold_left Z.max zs z ∈ z :: zs /\ fold_left Z.min zs z ∈ z :: zs /\
  forall y, y ∈ z :: zs -> fold_left Z.min zs z <= y <= fold_left Z.max zs z.
Proof.
  destruct (fold_max_spec zs z) as (M1 & M2 & M3).
  destruct (fold_min_spec zs z) as (N1 & N2 & N3).
  split; [|split].
  - apply elem_of_cons. destruct M3; auto.
  - apply elem_of_cons. destruct N3; auto.
  - intros y [->|Hy]%elem_of_cons; [lia|]. split; [by apply N2 | by apply M2].
Qed.

(** X4. The statistics depend only on which entries the window holds, not
    on their order or on repetitions: two windows with the same entries give
    the same result, be it the same high and low or the same error. *)
Theorem calculateStats_same_entries (prices prices' : list string) :
  (forall s, s ∈ prices <-> s ∈ prices') ->
  calculateStats prices = calculateStats prices'.
Proof.
  intros Hsame. rewrite !calculateStats_spec.
  destruct (mapM StringToBigInt prices) as [zs|] eqn:E;
    destruct (mapM StringToBigInt prices') as [zs'|] eqn:E'.
  - apply mapM_Some in E, E'.
    assert (forall z, z ∈ zs <-> z ∈ zs') as Hz.
    { intros z. rewrite (parsed_elem_of _ _ _ E), (parsed_elem_of _ _ _ E').
      split; intros (s & Hs & Es); exists s; (split; [by apply Hsame | done]). }
    destruct zs as [|z zs], zs' as [|z' zs']; [done| | |].
    + exfalso. eapply elem_of_nil, Hz, elem_of_cons. by left.
    + exfalso. eapply elem_of_nil, Hz, elem_of_cons. by left.
    + destruct (fold_extrema z zs) as (M & N & B).
      destruct (fold_extrema z' zs') as (M' & N' & B').
      apply Hz in M, N. apply Hz in M', N'.
      pose proof (B _ M'). pose proof (B _ N'). pose proof (B' _ M). pose proof (B' _ N).
      do 2 f_equal; f_equal; lia.
  - exfalso. assert (is_Some (mapM StringToBigInt prices')) as [? ?]; [|congruence].
    apply mapM_is_Some, Forall_forall. intros s Hs%Hsame.
    assert (is_Some (mapM StringToBigInt prices)) as Hp by by eexists.
    apply mapM_is_Some in Hp. by apply (proj1 (Forall_forall _ _) Hp).
  - exfalso. assert (is_Some (mapM StringToBigInt prices)) as [? ?]; [|congruence].
    apply mapM_is_Some, Forall_forall. intros s Hs%Hsame.
    assert (is_Some (mapM StringToBigInt prices')) as Hp by by eexists.
    apply mapM_is_Some in Hp. by apply (proj1 (Forall_forall _ _) Hp).
  - done.
Qed.

Lemma calculateStats_same_entries_witness :
  calculateStats ["5"; "3"; "5"; "0x10"] = calculateStats ["0x10"; "5"; "3"].
Proof.
  apply calculateStats_same_entries. intros s.
  rewrite !elem_of_cons, !elem_of_nil. tauto.
Defined.

(** X5. [calculateStats] fails exactly when some entry of the window is not
    an integer literal, always with a SyntaxError; when it returns, the
    reported low and high read as integers with low at most high. *)
Theorem calculateStats_failure (prices : list string) :
  (calculateStats prices = Throw SyntaxError <->
   exists s, s ∈ prices /\ StringToBigInt s = None) /\
  (forall msg, calculateStats prices = Throw msg -> msg = SyntaxError) /\
  (forall stats, calculateStats prices = Normal stats ->
     exists hi lo,
       BigInt (max stats) = Normal hi /\ BigInt (min stats) = Normal lo /\ lo <= hi).
Proof.
  rewrite calculateStats_spec.
  destruct (mapM StringToBigInt prices) as [zs|] eqn:E.
  - assert (~ exists s, s ∈ prices /\ StringToBigInt s = None) as Hno.
    { intros (s & Hs & Es). apply mapM_Some in E.
      apply list_elem_of_lookup in Hs as [i Hi].
      destruct (Forall2_lookup_l _ _ _ _ _ E Hi) as (y & _ & Ey). congruence. }
    split; [|split].
    + destruct zs; split; (discriminate || tauto).
    + destruct zs; discriminate.
    + destruct zs as [|z zs]; intros stats [= <-]; cbn [max min].
      * exists 0, 0. by vm_compute.
      * destruct (fold_extrema z zs) as (M & _ & B). specialize (B _ M).
        eexists _, _. rewrite !BigInt_toString. split; [done|]. split; [done|]. lia.
  - split; [|split; [by intros msg [= <-] | discriminate]].
    split; [intros _ | done].
    assert (~ Forall (is_Some ∘ StringToBigInt) prices) as Hn.
    { intros Hall%mapM_is_Some. destruct Hall. congruence. }
    apply not_Forall_Exists in Hn; [|apply _].
    apply Exists_exists in Hn as (s & Hs & Hns). exists s. split; [done|].
    cbn in Hns. destruct (StringToBigInt s); [|done]. exfalso. apply Hns. by eexists.
Qed.

(** X6. While the window is not full nothing is evicted, so high and low can
    only widen: appending a value to a non-empty window of fewer than
    [MAX_HISTORY_SIZE] readable entries gives as new high the larger of the
    old high and the value, and as new low the smaller of the old low and
    the value. *)
Theorem stats_widen_until_full (window : list string) (v : string) (z : Z) (old : Stats) :
  window <> [] ->
  (length window < MAX_HISTORY_SIZE)%nat ->
  calculateStats window = Normal old ->
  StringToBigInt v = Some z ->
  exists hi lo,
    max old = toString hi /\ min old = toString lo /\
    calculateStats (appendHistory window v)
    = Normal {| max := toString (Z.max hi z); min := toString (Z.min lo z) |}.
Proof.
  intros Hne Hlen Hold Hv.
  assert (appendHistory window v = window ++ [v]) as ->.
  { rewrite appendHistory_step by lia.
    destruct (Nat.eqb_spec (length window) MAX_HISTORY_SIZE); [lia | done]. }
  rewrite calculateStats_spec in Hold. rewrite calculateStats_spec.
  destruct (mapM StringToBigInt window) as [zs|] eqn:E; [|done].
  assert (mapM StringToBigInt (window ++ [v]) = Some (zs ++ [z])) as ->.
  { apply mapM_Some. apply mapM_Some in E. apply Forall2_app; [done|]. by repeat constructor. }
  destruct zs as [|z0 zs].
  { apply mapM_Some, Forall2_length in E. by destruct window. }
  injection Hold as <-. cbn [app]. rewrite !fold_left_app. cbn [fold_left max min].
  by eexists _, _.
Qed.

Lemma stats_widen_until_full_witness :
  exists hi lo,
    "20" = toString hi /\ "5" = toString lo /\
    calculateStats (appendHistory ["5"; "20"] "0x19")
    = Normal {| max := toString (Z.max hi 25); min := toString (Z.min lo 25) |}.
Proof.
  apply (stats_widen_until_full ["5"; "20"] "0x19" 25 {| max := "20"; min := "5" |}).
  - discriminate.
  - unfold MAX_HISTORY_SIZE. cbn [length]. lia.
  - vm_compute. reflexivity.
  - vm_compute. reflexivity.
Defined.

(** ** More on the buy signal *)

Lemma referenceBuySignal_facts high low price :
  0 <= high -> 0 <= low -> 0 <= price ->
  let sig := referenceBuySignal high low price in
  0 <= savingsPercent sig <= 100 /\
  (isBuySignal sig = true <->
   0 < (high + low) / 2 /\ 100 * price <= 89 * ((high + low) / 2)).
Proof.
  intros Hh Hl Hp. unfold referenceBuySignal.
  assert (0 <= (high + low) / 2) as Havg by (apply Z.div_pos; lia).
  set (avg := (high + low) / 2) in *. rewrite Z.geb_leb.
  destruct ((avg =? 0) || (avg <=? price)) eqn:G; cbn [isBuySignal savingsPercent].
  - split; [lia|]. split; [done|]. intros [H1 H2].
    apply orb_true_iff in G as [G%Z.eqb_eq|G%Z.leb_le]; lia.
  - apply orb_false_iff in G as [G0%Z.eqb_neq G%Z.leb_gt].
    split; [by apply savings_range|].
    rewrite Z.gtb_ltb, Z.ltb_lt.
    destruct (Z.le_gt_cases (avg * 11) ((avg - price) * 100)) as [Hle|Hgt].
    + pose proof (Z.div_le_lower_bound ((avg - price) * 100) avg 11 ltac:(lia) Hle). lia.
    + pose proof (Z.div_lt_upper_bound ((avg - price) * 100) avg 11 ltac:(lia) Hgt). lia.
Qed.

(** X7. For non-negative prices the buy signal is a fixed threshold on the
    price: [savingsPercent] lies between 0 and 100, and [isBuySignal] holds
    exactly when the floor average of high and low is positive and the
    price is at most 89 percent of it. *)
Theorem buy_signal_threshold data high low price :
  0 <= high -> 0 <= low -> 0 <= price ->
  BigInt (priceWei data) = Normal price ->
  BigInt (high24h data) = Normal high ->
  BigInt (low24h data) = Normal low ->
  exists sig,
    detectBuySignal data = Normal sig /\
    0 <= savingsPercent sig <= 100 /\
    (isBuySignal sig = true <->
     0 < (high + low) / 2 /\ 100 * price <= 89 * ((high + low) / 2)).
Proof.
  intros Hh Hl Hp Ep Eh El. exists (referenceBuySignal high low price).
  split; [by apply detectBuySignal_reference|].
  by apply referenceBuySignal_facts.
Qed.

Lemma buy_signal_threshold_witness :
  exists sig,
    detectBuySignal (sample 89 120 80) = Normal sig /\
    0 <= savingsPercent sig <= 100 /\
    (isBuySignal sig = true <->
     0 < (120 + 80) / 2 /\ 100 * 89 <= 89 * ((120 + 80) / 2)).
Proof.
  apply (buy_signal_threshold (sample 89 120 80) 120 80 89);
    first [lia | reflexivity].
Defined.

(** X9. With high and low fixed, a lower non-negative price never lowers
    the savings and never loses the signal. *)
Theorem buy_signal_antitone high low price1 price2 :
  0 <= high -> 0 <= low -> 0 <= price1 -> price1 <= price2 ->
  exists sig1 sig2,
    detectBuySignal (sample price1 high low) = Normal sig1 /\
    detectBuySignal (sample price2 high low) = Normal sig2 /\
    savingsPercent sig2 <= savingsPercent sig1 /\
    (isBuySignal sig2 = true -> isBuySignal sig1 = true).
Proof.
  intros Hh Hl Hp1 Hle.
  exists (referenceBuySignal high low price1), (referenceBuySignal high low price2).
  split; [|split].
  - apply detectBuySignal_reference; try lia; apply BigInt_toString.
  - apply detectBuySignal_reference; try lia; apply BigInt_toString.
  - split.
    + pose proof (referenceBuySignal_facts high low price1 Hh Hl Hp1) as [R1 _].
      unfold referenceBuySignal in *. rewrite !Z.geb_leb in *.
      set (avg := (high + low) / 2) in *.
      destruct ((avg =? 0) || (avg <=? price2)) eqn:G2; [exact (proj1 R1)|].
      apply orb_false_iff in G2 as [G0 G2]. rewrite G0. cbn [orb].
      apply Z.leb_gt in G2. apply Z.eqb_neq in G0.
      destruct (Z.leb_spec avg price1); [lia|]. cbn [savingsPercent].
      apply Z.div_le_mono; lia.
    + intros S2.
      apply (referenceBuySignal_facts high low price2 Hh Hl ltac:(lia)) in S2.
      apply (referenceBuySignal_facts high low price1 Hh Hl Hp1). lia.
Qed.

Lemma buy_signal_antitone_witness :
  exists sig1 sig2,
    detectBuySignal (sample 70 120 80) = Normal sig1 /\
    detectBuySignal (sample 95 120 80) = Normal sig2 /\
    savingsPercent sig2 <= savingsPercent sig1 /\
    (isBuySignal sig2 = true -> isBuySignal sig1 = true).
Proof. apply (buy_signal_antitone 120 80 70 95); lia. Defined.

(** The integers behind the fields of a fetched record. *)
Lemma fetched_record_fields c rpc now h h' d :
  fetchChainGasPrice c rpc now h = (h', Normal (Some d)) ->
  exists price low high,
    priceWei d = toString price /\ low24h d = toString low /\
    high24h d = toString high /\ low <= price <= high.
Proof.
  rewrite fetchChainGasPrice_spec.
  destruct (sampleOf rpc) as [z|]; [|done]. cbn zeta.
  set (history := appendHistory _ _).
  destruct (calculateStats history) as [stats|msg] eqn:Hstats; [|done].
  intros [= _ <-]. cbn [priceWei high24h low24h].
  pose proof Hstats as Hspec. rewrite calculateStats_spec in Hspec.
  destruct (mapM StringToBigInt history) as [zs|] eqn:Hzs; [|done].
  pose proof Hzs as HF. apply mapM_Some in HF.
  assert (z ∈ zs) as Hin.
  { apply (parsed_elem_of _ _ _ HF). exists (toString z).
    split; [apply appendHistory_last | apply StringToBigInt_toString]. }
  assert (zs <> []) as Hne by (intros ->; by apply elem_of_nil in Hin).
  destruct (calculateStats_extrema _ _ _ Hzs Hne Hstats) as (hi & lo & -> & -> & _ & _ & Hb).
  exists z, lo, hi. repeat split; try done; by apply Hb.
Qed.

(** X8. [detectBuySignal] accepts every record the fetcher returns, and a
    signal needs a price strictly below the record's high: the first sample
    of a chain, or a sample that sets a new high, never raises one. *)
Theorem fetched_record_signal c rpc now h h' d :
  fetchChainGasPrice c rpc now h = (h', Normal (Some d)) ->
  exists sig price high,
    detectBuySignal d = Normal sig /\
    BigInt (priceWei d) = Normal price /\
    BigInt (high24h d) = Normal high /\
    (isBuySignal sig = true -> price < high) /\
    (priceWei d = high24h d -> isBuySignal sig = false).
Proof.
  intros (price & low & high & Ep & El & Eh & Hb)%fetched_record_fields.
  assert ((high + low) ÷ 2 <= high) as Havg.
  { rewrite <- (quot_double high) at 2. apply Z.quot_le_mono; lia. }
  unfold detectBuySignal. rewrite Ep, El, Eh, !BigInt_toString.
  cbn [mbind Completion_bind].
  assert (high = price -> ((high + low) ÷ 2 =? 0) || ((high + low) ÷ 2 <=? price) = true) as Hg.
  { intros <-. apply orb_true_iff. right. by apply Z.leb_le. }
  destruct (((high + low) ÷ 2 =? 0) || ((high + low) ÷ 2 <=? price)) eqn:G.
  - eexists _, price, high. repeat split; done.
  - apply orb_false_iff in G as [_ G%Z.leb_gt].
    eexists _, price, high. split; [done|]. split; [done|]. split; [done|].
    split; [intros _; lia|].
    intros E%toString_inj. by specialize (Hg (eq_sym E)).
Qed.

Lemma fetched_record_signal_witness :
  exists sig price high,
    detectBuySignal {| chain := "ethereum"; priceWei := "10"; high24h := "20";
                       low24h := "5"; timestamp := 7 |} = Normal sig /\
    BigInt "10" = Normal price /\ BigInt "20" = Normal high /\
    (isBuySignal sig = true -> price < high) /\
    ("10" = "20" -> isBuySignal sig = false).
Proof.
  apply (fetched_record_signal ethereum (RpcString "0xa") 7
           (<["ethereum" := ["5"; "20"]]> ∅)
           (<["ethereum" := ["5"; "20"; "10"]]> ∅)
           {| chain := "ethereum"; priceWei := "10"; high24h := "20"; low24h := "5";
              timestamp := 7 |}).
  vm_compute. reflexivity.
Defined.

(** ** The order in which requests settle *)

Lemma fetchChainGasPrice_own_window c rpc now h h2 :
  h2 !! name c = h !! name c ->
  snd (fetchChainGasPrice c rpc now h2) = snd (fetchChainGasPrice c rpc now h) /\
  fst (fetchChainGasPrice c rpc now h2) !! name c
  = fst (fetchChainGasPrice c rpc now h) !! name c.
Proof.
  intros E. rewrite !fetchChainGasPrice_spec. destruct (sampleOf rpc); [|done].
  cbn. by rewrite E, !lookup_insert_eq.
Qed.

Lemma fetchChainGasPrice_other c rpc now h k :
  k <> name c -> fst (fetchChainGasPrice c rpc now h) !! k = h !! k.
Proof.
  intros Hne. rewrite fetchChainGasPrice_spec. destruct (sampleOf rpc); [|done].
  cbn. by rewrite lookup_insert_ne.
Qed.

Lemma fetchChainGasPrice_returns c rpc now h :
  exists r, snd (fetchChainGasPrice c rpc now h) = Normal r.
Proof. rewrite fetchChainGasPrice_spec. destruct (sampleOf rpc); by eexists. Qed.

Section SettleOrder.

Variable enabledChains : list ChainConfig.
Variable env : FetchEnv.
Variable h0 : PriceHistory.
Hypothesis distinct : NoDup (name <$> enabledChains).

Lemma distinct_names i j c c' :
  enabledChains !! i = Some c -> enabledChains !! j = Some c' ->
  name c = name c' -> i = j.
Proof.
  intros Hi Hj E. apply (NoDup_lookup _ _ _ (name c) distinct).
  - by rewrite list_lookup_fmap, Hi.
  - by rewrite list_lookup_fmap, Hj, E.
Qed.

Lemma settle_orderInv i h slots :
  orderInv enabledChains env h0 h slots ->
  exists h' slots',
    settle enabledChains env i slots h = (h', Normal slots') /\
    orderInv enabledChains env h0 h' slots' /\
    (forall j, settled slots j -> settled slots' j) /\
    ((i < length enabledChains)%nat -> settled slots' i).
Proof.
  intros (Hlen & Hslots & Hrest). unfold settle.
  destruct (enabledChains !! i) as [c|] eqn:Ec; cycle 1.
  { exists h, slots. split; [done|]. split; [done|]. split; [done|].
    intros Hi. apply lookup_ge_None in Ec. lia. }
  destruct (slots !! i) as [[r|]|] eqn:Es.
  - exists h, slots. split; [done|]. split; [done|]. split; [done|]. intros _. by exists r.
  - destruct (Hslots i c Ec) as [[_ Hwin]|(r & _ & Hs & _)]; [|congruence].
    destruct (fetchChainGasPrice_own_window c (rpcOf env i) (clockOf env i) h0 h Hwin)
      as [Eres Eown].
    destruct (fetchChainGasPrice_returns c (rpcOf env i) (clockOf env i) h0) as [r Er].
    destruct (fetchChainGasPrice c (rpcOf env i) (clockOf env i) h) as [h' res] eqn:E.
    cbn [fst snd] in *. rewrite Er in Eres. subst res.
    assert (forall k, k <> name c -> h' !! k = h !! k) as Hother.
    { intros k Hk. pose proof (fetchChainGasPrice_other c (rpcOf env i) (clockOf env i) h k Hk).
      by rewrite E in *. }
    exists h', (<[i := Some r]> slots). rewrite bind_run, E, ret_run. split; [done|].
    assert (i < length slots)%nat as Hi by by eapply lookup_lt_Some.
    split; [|split].
    + split; [by rewrite length_insert|]. split.
      * intros j c' Ec'. destruct (decide (j = i)) as [->|Hne].
        -- rewrite Ec in Ec'. injection Ec' as <-. right. exists r.
           by rewrite list_lookup_insert_eq.
        -- assert (name c' <> name c) as Hn.
           { intros En. apply Hne. by eapply distinct_names. }
           rewrite list_lookup_insert_ne by done. rewrite (Hother _ Hn).
           apply Hslots, Ec'.
      * intros k Hk. rewrite Hother; [by apply Hrest|].
        intros ->. apply Hk. apply list_elem_of_fmap. exists c. split; [done|].
        by eapply list_elem_of_lookup_2.
    + intros j [r' Hj]. exists r'. rewrite list_lookup_insert_ne; [done|].
      intros ->. congruence.
    + intros _. exists r. by rewrite list_lookup_insert_eq.
  - apply lookup_lt_Some in Ec. apply lookup_ge_None in Es. lia.
Qed.

Lemma settleAll_orderInv order h slots :
  orderInv enabledChains env h0 h slots ->
  exists h' slots',
    settleAll enabledChains env order slots h = (h', Normal slots') /\
    orderInv enabledChains env h0 h' slots' /\
    (forall j, settled slots j -> settled slots' j) /\
    (forall j, j ∈ order -> (j < length enabledChains)%nat -> settled slots' j).
Proof.
  revert h slots. induction order as [|i order IH]; intros h slots Hinv.
  - exists h, slots. split; [done|]. split; [done|]. split; [done|].
    by intros j Hj%elem_of_nil.
  - destruct (settle_orderInv i h slots Hinv) as (h1 & slots1 & E1 & Hinv1 & Hmono1 & Hi1).
    destruct (IH h1 slots1 Hinv1) as (h2 & slots2 & E2 & Hinv2 & Hmono2 & Hin2).
    exists h2, slots2. cbn [settleAll]. rewrite bind_run, E1, E2.
    split; [done|]. split; [done|]. split; [by auto|].
    intros j [->|Hj]%elem_of_cons Hlt; [by auto | by auto].
Qed.

(** Once every request has settled, the invariant fixes the outcome. *)
Lemma orderInv_final h1 slots1 h2 slots2 :
  orderInv enabledChains env h0 h1 slots1 ->
  orderInv enabledChains env h0 h2 slots2 ->
  (forall j, (j < length enabledChains)%nat -> settled slots1 j) ->
  (forall j, (j < length enabledChains)%nat -> settled slots2 j) ->
  h1 = h2 /\ slots1 = slots2.
Proof.
  intros (Hlen1 & Hs1 & Hr1) (Hlen2 & Hs2 & Hr2) Hall1 Hall2. split.
  - apply map_eq. intros k.
    destruct (decide (k ∈ name <$> enabledChains)) as [Hin|Hout].
    + apply list_elem_of_fmap in Hin as (c & -> & [i Hi]%list_elem_of_lookup).
      assert (i < length enabledChains)%nat as Hlt by by eapply lookup_lt_Some.
      destruct (Hall1 i Hlt) as [r1 E1]. destruct (Hall2 i Hlt) as [r2 E2].
      destruct (Hs1 i c Hi) as [[? _]|(? & _ & _ & ->)]; [congruence|].
      destruct (Hs2 i c Hi) as [[? _]|(? & _ & _ & ->)]; [congruence|]. done.
    + by rewrite Hr1, Hr2.
  - apply list_eq. intros i.
    destruct (enabledChains !! i) as [c|] eqn:Hi.
    + destruct (Hs1 i c Hi) as [[E1 _]|(r1 & R1 & E1 & _)].
      { destruct (Hall1 i) as [? ?]; [by eapply lookup_lt_Some | congruence]. }
      destruct (Hs2 i c Hi) as [[E2 _]|(r2 & R2 & E2 & _)].
      { destruct (Hall2 i) as [? ?]; [by eapply lookup_lt_Some | congruence]. }
      rewrite E1, E2. congruence.
    + apply lookup_ge_None in Hi.
      rewrite (proj2 (lookup_ge_None slots1 i)), (proj2 (lookup_ge_None slots2 i)); [done|lia|lia].
Qed.

End SettleOrder.

Lemma orderInv_env enabledChains env1 env2 h0 h slots :
  (forall i, rpcOf env1 i = rpcOf env2 i) ->
  (forall i, clockOf env1 i = clockOf env2 i) ->
  orderInv enabledChains env2 h0 h slots -> orderInv enabledChains env1 h0 h slots.
Proof.
  intros Hr Hc (Hlen & Hs & Hrest). split; [done|]. split; [|done].
  intros i c Hi. rewrite Hr, Hc. by apply Hs.
Qed.

Lemma fetchAllGasPrices_window chains env h i c :
  NoDup (name <$> filter (fun c => enabled c = true) chains) ->
  filter (fun c => enabled c = true) chains !! i = Some c ->
  fst (fetchAllGasPrices chains env h) !! name c
  = fst (fetchChainGasPrice c (rpcOf env i) (clockOf env i) h) !! name c.
Proof.
  intros Hnd Hi. unfold fetchAllGasPrices. cbn zeta.
  set (enabledChains := filter (fun c => enabled c = true) chains) in *.
  set (n := length enabledChains).
  assert (orderInv enabledChains env h h (replicate n None)) as Hinit.
  { split; [apply length_replicate|]. split; [|done].
    intros j c' Hj. left. split; [|done]. apply lookup_replicate. split; [done|].
    by eapply lookup_lt_Some. }
  destruct (settleAll_orderInv enabledChains env h Hnd (settleOrder env ++ seq 0 n) h _ Hinit)
    as (h1 & slots1 & E1 & Hinv1 & _ & Hset1).
  rewrite bind_run, E1, ret_run. cbn [fst].
  destruct Hinv1 as (_ & Hs & _).
  destruct (Hs i c Hi) as [[Hp _]|(r & _ & _ & E)]; [|exact E].
  assert (i < n)%nat as Hlt by by eapply lookup_lt_Some.
  destruct (Hset1 i) as [r Hr']; [|done|congruence].
  apply elem_of_app. right. apply elem_of_seq. lia.
Qed.

Lemma fetchAllGasPrices_any_order chains env1 env2 h :
  NoDup (name <$> filter (fun c => enabled c = true) chains) ->
  (forall i, rpcOf env1 i = rpcOf env2 i) ->
  (forall i, clockOf env1 i = clockOf env2 i) ->
  fetchAllGasPrices chains env1 h = fetchAllGasPrices chains env2 h.
Proof.
  intros Hnd Hr Hc. unfold fetchAllGasPrices. cbn zeta.
  set (enabledChains := filter (fun c => enabled c = true) chains) in *.
  set (n := length enabledChains).
  assert (forall env, orderInv enabledChains env h h (replicate n None)) as Hinit.
  { intros env. split; [apply length_replicate|]. split; [|done].
    intros i c Hi. left. split; [|done]. apply lookup_replicate. split; [done|].
    by eapply lookup_lt_Some. }
  assert (forall order j, (j < n)%nat -> j ∈ order ++ seq 0 n) as Hseq.
  { intros order j Hj. apply elem_of_app. right. apply elem_of_seq. lia. }
  destruct (settleAll_orderInv enabledChains env1 h Hnd (settleOrder env1 ++ seq 0 n) h _
              (Hinit env1)) as (h1 & slots1 & E1 & Hinv1 & _ & Hset1).
  destruct (settleAll_orderInv enabledChains env2 h Hnd (settleOrder env2 ++ seq 0 n) h _
              (Hinit env2)) as (h2 & slots2 & E2 & Hinv2 & _ & Hset2).
  apply (orderInv_env _ env1 env2) in Hinv2; [|done..].
  destruct (orderInv_final enabledChains env1 h h1 slots1 h2 slots2 Hinv1 Hinv2)
    as [-> ->]; [by auto..|].
  by rewrite !bind_run, E1, E2.
Qed.

(** X10. When the enabled chains have distinct names, a call of
    [fetchAllGasPrices] does not depend on the order in which its requests
    settle: two outside worlds that give the same answers and clock readings
    lead to the same batch and the same histories, and each chain's window
    ends as its fetch alone leaves it on the histories the call started
    with. *)
Theorem fetchAllGasPrices_order_irrelevant chains env1 env2 h :
  NoDup (name <$> filter (fun c => enabled c = true) chains) ->
  (forall i, rpcOf env1 i = rpcOf env2 i) ->
  (forall i, clockOf env1 i = clockOf env2 i) ->
  fetchAllGasPrices chains env1 h = fetchAllGasPrices chains env2 h /\
  forall i c,
    filter (fun c => enabled c = true) chains !! i = Some c ->
    fst (fetchAllGasPrices chains env1 h) !! name c
    = fst (fetchChainGasPrice c (rpcOf env1 i) (clockOf env1 i) h) !! name c.
Proof.
  intros Hnd Hr Hc. split.
  - by apply fetchAllGasPrices_any_order.
  - intros i c Hi. by apply fetchAllGasPrices_window.
Qed.

Lemma fetchAllGasPrices_order_irrelevant_witness :
  fetchAllGasPrices threeChains failingB historyB
  = fetchAllGasPrices threeChains (withOrder failingB [1%nat; 0%nat; 2%nat]) historyB.
Proof.
  apply (fetchAllGasPrices_order_irrelevant threeChains failingB
           (withOrder failingB [1%nat; 0%nat; 2%nat]) historyB).
  - apply (bool_decide_unpack _). vm_compute. exact I.
  - intros i. reflexivity.
  - intros i. reflexivity.
Defined.

Lemma configured_chains_distinct env :
  NoDup (name <$> filter (fun c => enabled c = true) (chains (loadConfig env))).
Proof.
  cbn. apply (bool_decide_unpack _). vm_compute. exact I.
Qed.

(** X11. For the six chains that [loadConfig] configures, whatever the
    environment variables are, the result of a cycle's fetch does not
    depend on the order in which the six requests settle. *)
Theorem configured_fetch_order_irrelevant (penv : ProcessEnv) env order h :
  fetchAllGasPrices (chains (loadConfig penv)) env h
  = fetchAllGasPrices (chains (loadConfig penv)) (withOrder env order) h.
Proof.
  apply fetchAllGasPrices_any_order; [apply configured_chains_distinct|done..].
Qed.

(** ** More on the configuration *)

Lemma envOr_blank (env : ProcessEnv) k key fallback :
  envOr (<[k := ""]> env) key fallback = envOr (delete k env) key fallback.
Proof.
  unfold envOr. destruct (decide (k = key)) as [->|Hne].
  - by rewrite lookup_insert_eq, lookup_delete_eq.
  - by rewrite lookup_insert_ne, lookup_delete_ne.
Qed.

(** X12. [loadConfig] cannot tell an empty environment variable from an
    unset one: setting any variable to the empty string gives the same
    configuration as removing it, so each setting falls back to its
    default. *)
Theorem loadConfig_blank_is_unset (env : ProcessEnv) (k : string) :
  loadConfig (<[k := ""]> env) = loadConfig (delete k env).
Proof. unfold loadConfig. by rewrite !envOr_blank. Qed.

Lemma validateConfig_errors (config : Config) :
  errors (validateConfig config)
  = (if falsy (privateKey (sui config)) then ["SUI_PRIVATE_KEY is required"] else [])
    ++ (if String.eqb (packageId (sui config)) "0x0"
        then ["ORACLE_PACKAGE_ID not set (will run in demo mode)"] else [])
    ++ (if String.eqb (oracleObjectId (sui config)) "0x0"
        then ["ORACLE_OBJECT_ID not set"] else [])
    ++ (if String.eqb (adminCapId (sui config)) "0x0"
        then ["ADMIN_CAP_ID not set"] else []).
Proof.
  unfold validateConfig, pushIf. cbn [errors].
  by destruct (falsy _), (String.eqb (packageId _) _), (String.eqb (oracleObjectId _) _),
    (String.eqb (adminCapId _) _).
Qed.

(** X13. What [validateConfig] reports. The configuration is valid exactly
    when the private key is not empty and neither the oracle object id nor
    the admin cap id is the placeholder ['0x0']; a missing package id alone
    never makes it invalid, it only adds the demo-mode warning. The error
    list is empty exactly when all four settings are present, and a valid
    configuration carries at most that one warning. *)
Theorem validateConfig_report (config : Config) :
  (valid (validateConfig config) = true <->
   privateKey (sui config) <> "" /\
   oracleObjectId (sui config) <> "0x0" /\
   adminCapId (sui config) <> "0x0") /\
  (errors (validateConfig config) = [] <->
   privateKey (sui config) <> "" /\
   packageId (sui config) <> "0x0" /\
   oracleObjectId (sui config) <> "0x0" /\
   adminCapId (sui config) <> "0x0") /\
  ("ORACLE_PACKAGE_ID not set (will run in demo mode)" ∈ errors (validateConfig config) <->
   packageId (sui config) = "0x0") /\
  (valid (validateConfig config) = true ->
   errors (validateConfig config)
   = if String.eqb (packageId (sui config)) "0x0"
     then ["ORACLE_PACKAGE_ID not set (will run in demo mode)"]
     else []).
Proof.
  split; [apply validateConfig_valid|].
  assert (privateKey (sui config) <> "" <-> falsy (privateKey (sui config)) = false) as Hk.
  { by destruct (privateKey (sui config)). }
  split; [|split].
  - rewrite validateConfig_errors, Hk.
    destruct (falsy (privateKey (sui config)));
      destruct (String.eqb_spec (packageId (sui config)) "0x0");
      destruct (String.eqb_spec (oracleObjectId (sui config)) "0x0");
      destruct (String.eqb_spec (adminCapId (sui config)) "0x0");
      cbn [app]; split; try discriminate; try (intros (? & ? & ? & ?); congruence).
    by intros _.
  - rewrite validateConfig_errors.
    destruct (falsy (privateKey (sui config)));
      destruct (String.eqb_spec (packageId (sui config)) "0x0") as [Ep|Ep];
      destruct (String.eqb (oracleObjectId (sui config)) "0x0");
      destruct (String.eqb (adminCapId (sui config)) "0x0");
      cbn [app]; rewrite ?elem_of_cons, ?elem_of_nil; split;
      first [ by intros _
            | intros _; tauto
            | intros H; exfalso; repeat destruct H as [H|H]; (discriminate H || exact H)
            | intros H; congruence ].
  - intros Hv. rewrite validateConfig_errors.
    apply validateConfig_valid in Hv as (Hp & Ho & Ha).
    apply Hk in Hp. apply String.eqb_neq in Ho, Ha.
    rewrite Hp, Ho, Ha. cbn [app]. by rewrite app_nil_r.
Qed.

Lemma main_exit_code env ext code : main env ext = Exited code -> code = 1.
Proof.
  unfold main. destruct (negb _); [by intros [= <-]|].
  destruct (newSuiPublisher _ _); [|by intros [= <-]].
  destruct (_ && _); [by intros [= <-] | discriminate].
Qed.

(** X14. What [main] has checked when it installs the timer: the private
    key is not empty and was decoded (the branch that generates a fresh key
    pair is never taken from [main]); unless the package id is unset (demo
    mode) the oracle object was found; and the awaited first cycle has run
    on the empty histories, so [errorCount] is 0 and [updateCount] is at most
    1. With a package id set and an oracle object that is not found, [main]
    exits; every exit of [main] has code 1. *)
Theorem main_startup (env : ProcessEnv) (ext : Startup) :
  (forall config st,
     main env ext = LoopEntered config st ->
     privateKey (sui config) <> "" /\
     keyDecodes ext = true /\
     (packageId (sui config) = "0x0" \/ oracleObject ext = Normal true) /\
     st = fst (runUpdateCycle config
                 (botComponents config (firstFetch ext) (sinkOf ext)) initialState) /\
     errorCount st = 0%nat /\ (updateCount st <= 1)%nat /\
     historyWf (priceHistory (world st))) /\
  (packageId (sui (loadConfig env)) <> "0x0" ->
   checkOracleHealth (oracleObject ext) = false ->
   main env ext = Exited 1) /\
  (forall code, main env ext = Exited code -> code = 1).
Proof.
  split; [|split; [|apply main_exit_code]].
  - intros config st. unfold main.
    destruct (valid (validateConfig (loadConfig env))) eqn:Hv; [|discriminate].
    cbn [negb]. apply validateConfig_valid in Hv as (Hk & _ & _).
    unfold newSuiPublisher, initializeKeypair.
    destruct (getFullnodeUrl _); [|discriminate]. cbn [mbind Completion_bind].
    destruct (privateKey (sui (loadConfig env))) as [|ch r] eqn:Ek; [done|]. cbn [falsy].
    destruct (keyDecodes ext); [|discriminate].
    destruct (String.eqb_spec (packageId (sui (loadConfig env))) "0x0") as [Ep|Ep];
      cbn [negb andb].
    + intros [= <- <-]. rewrite Ek. split; [done|]. split; [done|]. split; [by left|].
      split; [done|].
      destruct (runUpdateCycle_bot (loadConfig env) (firstFetch ext) (sinkOf ext)
                  initialState historyWf_empty) as (st' & -> & Hwf & He & Hu).
      cbn [fst]. split; [done|]. split; [|done]. rewrite Hu.
      destruct (successes _ _); unfold initialState; cbn [updateCount]; lia.
    + destruct (oracleObject ext) as [[|]|] eqn:Eo; cbn [checkOracleHealth negb];
        try discriminate.
      intros [= <- <-]. rewrite Ek. split; [done|]. split; [done|]. split; [by right|].
      split; [done|].
      destruct (runUpdateCycle_bot (loadConfig env) (firstFetch ext) (sinkOf ext)
                  initialState historyWf_empty) as (st' & -> & Hwf & He & Hu).
      cbn [fst]. split; [done|]. split; [|done]. rewrite Hu.
      destruct (successes _ _); unfold initialState; cbn [updateCount]; lia.
  - intros Hp Hh. unfold main. destruct (negb _); [done|].
    destruct (newSuiPublisher _ _); [|done]. rewrite Hh.
    by destruct (String.eqb_spec (packageId (sui (loadConfig env))) "0x0").
Qed.

Lemma main_startup_witness :
  main (<["ADMIN_CAP_ID" := "0x2c"]> fullEnv)
       {| keyDecodes := true; oracleObject := Normal false;
          firstFetch := failingB; sinkOf := acceptAll |} = Exited 1.
Proof.
  apply (proj1 (proj2 (main_startup (<["ADMIN_CAP_ID" := "0x2c"]> fullEnv)
           {| keyDecodes := true; oracleObject := Normal false;
              firstFetch := failingB; sinkOf := acceptAll |}))).
  - vm_compute. discriminate.
  - reflexivity.
Defined.

(** ** More on the publisher *)

Lemma u128_arg s :
  BigInt s ≫= pure_u128 =
    match u128Of s with
    | Some z => Normal (ArgU128 z)
    | None => match StringToBigInt s with
              | Some _ => Throw "TypeError: Invalid u128 value"
              | None => Throw SyntaxError
              end
    end.
Proof.
  unfold BigInt, u128Of, pure_u128. destruct (StringToBigInt s) as [z|]; [|done].
  cbn. by destruct (inU128 z).
Qed.

Lemma publishSingleUpdate_spec config sink data submitted :
  publishSingleUpdate config sink data submitted =
    if String.eqb (priceWei data) "0" then (submitted, Normal None)
    else
      match u128Of (priceWei data), u128Of (high24h data), u128Of (low24h data) with
      | Some price, Some high, Some low =>
          (submitted ++ [singleTx config (chain data) price high low],
           Normal match sink (length submitted)
                          (singleTx config (chain data) price high low) with
                  | Normal digest => Some digest
                  | Throw _ => None
                  end)
      | _, _, _ => (submitted, Normal None)
      end.
Proof.
  unfold publishSingleUpdate. destruct (String.eqb _ _); [done|].
  unfold tryCatch. rewrite bind_run. unfold liftC at 1. rewrite u128_arg.
  destruct (u128Of (priceWei data)) as [price|]; [|by destruct (StringToBigInt _)].
  rewrite bind_run. unfold liftC at 1. rewrite u128_arg.
  destruct (u128Of (high24h data)) as [high|]; [|by destruct (StringToBigInt _)].
  rewrite bind_run. unfold liftC at 1. rewrite u128_arg.
  destruct (u128Of (low24h data)) as [low|]; [|by destruct (StringToBigInt _)].
  rewrite bind_run. unfold signAndExecuteTransaction, singleTx.
  by destruct (sink _ _).
Qed.


Lemma nonZero_keys (a b : list GasPriceData) :
  batchKey <$> a = batchKey <$> b -> batchKey <$> nonZero a = batchKey <$> nonZero b.
Proof.
  revert b. induction a as [|d a IH]; intros [|d' b]; try done.
  cbn [fmap list_fmap]. intros [= Ec Ew Hrest]. unfold nonZero in *. cbn [List.filter].
  rewrite Ew. destruct (negb _); cbn [fmap list_fmap]; [|by apply IH].
  unfold batchKey at 1 3. rewrite Ec, Ew. f_equal. by apply IH.
Qed.

Lemma keys_determine_batch (a b : list GasPriceData) :
  batchKey <$> a = batchKey <$> b ->
  chain <$> a = chain <$> b /\
  mapM (fun d => StringToBigInt (priceWei d)) a
  = mapM (fun d => StringToBigInt (priceWei d)) b.
Proof.
  revert b. induction a as [|d a IH]; intros [|d' b]; try done.
  cbn [fmap list_fmap]. intros [= Ec Ew Hrest]. destruct (IH _ Hrest) as [-> E].
  cbn [mapM]. by rewrite Ec, Ew, E.
Qed.

(** X17. [publishBatchUpdate] is all or nothing and uses only the chain
    name and the price of each record. If the price of any kept record does
    not read as an integer of the type [u128], nothing at all is handed to
    the client and the result is [null]; and two batches whose records agree
    on chain and price give the same result, whatever their highs, lows and
    timestamps are. *)
Theorem publishBatchUpdate_all_or_nothing config sink submitted :
  (forall dataArray d,
     d ∈ nonZero dataArray -> u128Of (priceWei d) = None ->
     publishBatchUpdate config sink dataArray submitted = (submitted, Normal None)) /\
  (forall a b,
     batchKey <$> a = batchKey <$> b ->
     publishBatchUpdate config sink a submitted
     = publishBatchUpdate config sink b submitted).
Proof.
  split.
  - intros dataArray d Hd Hu. rewrite publishBatchUpdate_spec.
    destruct (nonZero dataArray) as [|d0 validData] eqn:E; [done|]. cbn zeta.
    destruct (mapM _ (d0 :: validData)) as [prices|] eqn:Em; [|done].
    apply mapM_Some in Em. apply list_elem_of_lookup in Hd as [i Hi].
    destruct (Forall2_lookup_l _ _ _ _ _ Em Hi) as (p & Hp & Ep).
    unfold u128Of in Hu. rewrite Ep in Hu. cbn in Hu.
    destruct (inU128 p) eqn:Hin; [done|].
    destruct (forallb inU128 prices) eqn:Hall; [|done].
    rewrite forallb_forall in Hall. rewrite Hall in Hin; [done|].
    apply list_elem_of_In, list_elem_of_lookup. by exists i.
  - intros a b Hk. rewrite !publishBatchUpdate_spec.
    apply nonZero_keys in Hk. destruct (keys_determine_batch _ _ Hk) as [Ec Em].
    destruct (nonZero a) as [|da va], (nonZero b) as [|db vb]; try done.
    cbn zeta. by rewrite Ec, Em.
Qed.

Lemma publishBatchUpdate_all_or_nothing_witness :
  publishBatchUpdate testConfig acceptAll
    [sample 16 16 16; sample (-5) 9 (-5); sample 32 40 8] [] = ([], Normal None).
Proof.
  apply (proj1 (publishBatchUpdate_all_or_nothing testConfig acceptAll [])
           [sample 16 16 16; sample (-5) 9 (-5); sample 32 40 8] (sample (-5) 9 (-5))).
  - apply list_elem_of_In. vm_compute. tauto.
  - reflexivity.
Defined.

(** ** More on the update cycle *)

Lemma publishPrices_demo config cs prices st :
  packageId (sui config) = "0x0" -> publishPrices config cs prices st = (st, Normal tt).
Proof. intros E. unfold publishPrices. by rewrite E. Qed.

(** X15. Without a package id (demo mode) a cycle never calls the
    publisher: whatever [publishBatchUpdate] and [publishSingleUpdate] would
    do, even throw, the cycle ends in the same state as with any other
    publisher, as long as the fetch is the same. *)
Theorem demo_mode_never_publishes config cs1 cs2 st :
  packageId (sui config) = "0x0" ->
  (forall chains w, fetchAll cs1 chains w = fetchAll cs2 chains w) ->
  runUpdateCycle config cs1 st = runUpdateCycle config cs2 st.
Proof.
  intros Hdemo Hfetch. unfold runUpdateCycle, runUpdateCycle_try, tryCatch.
  rewrite !bind_run, !zoom_run, Hfetch.
  destruct (fetchAll cs2 (chains config) (world st)) as [w [prices|msg]]; [|done].
  destruct (length prices =? 0)%nat; [done|].
  rewrite !bind_run. destruct (forEach prices logPrice (setWorld w st)) as [s1 [[]|e]]; [|done].
  by rewrite !bind_run, !publishPrices_demo.
Qed.

Lemma demo_mode_never_publishes_witness :
  runUpdateCycle demoConfig (throwingPublisher [sample 16 20 4]) initialState
  = runUpdateCycle demoConfig
      {| fetchAll := fun _ => mret [sample 16 20 4];
         publishBatch := fun _ => mret (Some "digest");
         publishSingle := fun _ => mret (Some "digest") |} initialState.
Proof.
  apply (demo_mode_never_publishes demoConfig).
  - reflexivity.
  - intros chains w. reflexivity.
Defined.

Lemma publishSingleUpdate_adds config sink data submitted :
  exists r new,
    publishSingleUpdate config sink data submitted = (submitted ++ new, Normal r) /\
    (length new <= length (nonZero [data]))%nat.
Proof.
  rewrite publishSingleUpdate_spec. unfold nonZero. cbn [List.filter].
  destruct (String.eqb (priceWei data) "0"); cbn [negb length].
  { exists None, []. rewrite app_nil_r. split; [done | cbn [length]; lia]. }
  destruct (u128Of (priceWei data)), (u128Of (high24h data)), (u128Of (low24h data));
    first [ eexists _, [_]; split; [reflexivity | cbn [length]; lia]
          | exists None, []; rewrite app_nil_r; split; [reflexivity | cbn [length]; lia] ].
Qed.

Lemma publishBatchUpdate_adds config sink dataArray submitted :
  exists r new,
    publishBatchUpdate config sink dataArray submitted = (submitted ++ new, Normal r) /\
    (length new <= 1)%nat /\ (length new <= length (nonZero dataArray))%nat.
Proof.
  rewrite publishBatchUpdate_spec.
  destruct (nonZero dataArray) as [|d validData].
  { exists None, []. rewrite app_nil_r. cbn. split; [done|lia]. }
  cbn zeta. destruct (mapM _ (d :: validData)) as [prices|].
  - destruct (forallb inU128 prices).
    + eexists _, [_]. split; [done|]. cbn [length]. lia.
    + exists None, []. rewrite app_nil_r. cbn [length]. split; [done|lia].
  - exists None, []. rewrite app_nil_r. cbn [length]. split; [done|lia].
Qed.

Lemma nonZero_cons_length d l :
  length (nonZero (d :: l)) = (length (nonZero [d]) + length (nonZero l))%nat.
Proof. unfold nonZero. cbn [List.filter]. by destruct (negb _). Qed.

Lemma nonZero_length l : (length (nonZero l) <= length l)%nat.
Proof.
  induction l as [|d l IH]; [done|]. rewrite nonZero_cons_length.
  unfold nonZero at 1. cbn [List.filter length]. destruct (negb _); cbn [length]; lia.
Qed.

(** What the publishing block of the bot adds to the transactions handed
    over. *)
Lemma publishPrices_bot_adds config env sink prices st :
  exists st' new,
    publishPrices config (botComponents config env sink) prices st = (st', Normal tt) /\
    counters st' = counters st /\
    priceHistory (world st') = priceHistory (world st) /\
    submitted (world st') = submitted (world st) ++ new /\
    (length new <= length (nonZero prices))%nat /\
    (lengthGe (length prices) (batchSize config) = true -> (length new <= 1)%nat) /\
    (packageId (sui config) = "0x0" -> new = []).
Proof.
  unfold publishPrices.
  destruct (String.eqb_spec (packageId (sui config)) "0x0") as [Ep|Ep]; cbn [negb].
  { exists st, []. rewrite app_nil_r. repeat split; cbn [length]; lia. }
  destruct (lengthGe _ _).
  - cbn [publishBatch botComponents]. rewrite bind_run, !zoom_run.
    destruct (publishBatchUpdate_adds config sink prices (submitted (world st)))
      as (r & new & -> & H1 & H2).
    eexists _, new. by repeat split.
  - cbn [publishSingle botComponents].
    assert (exists st' new,
      forEach prices (fun price =>
        zoom world setWorld (zoom submitted setSubmitted
          (publishSingleUpdate config sink price)) ≫= fun _ => mret tt) st
      = (st', Normal tt) /\
      counters st' = counters st /\
      priceHistory (world st') = priceHistory (world st) /\
      submitted (world st') = submitted (world st) ++ new /\
      (length new <= length (nonZero prices))%nat) as (st' & new & E & ? & ? & ? & ?).
    { clear. revert st. induction prices as [|d prices IH]; intros st.
      { exists st, []. by rewrite app_nil_r. }
      cbn [forEach]. rewrite !bind_run, !zoom_run.
      destruct (publishSingleUpdate_adds config sink d (submitted (world st)))
        as (r & new1 & -> & H1).
      rewrite ret_run.
      destruct (IH (setWorld (setSubmitted (submitted (world st) ++ new1) (world st)) st))
        as (st' & new2 & -> & Hc & Hh & Hs & H2).
      exists st', (new1 ++ new2). split; [done|]. split; [done|]. split; [done|].
      cbn in Hs. rewrite Hs, app_assoc. split; [done|].
      rewrite length_app, nonZero_cons_length. lia. }
    exists st', new. rewrite E. by repeat split.
Qed.

(** X18. How much one cycle of the bot hands to the Sui client, on
    well-formed histories: the transactions handed over before stay as they
    are and the new ones follow them; there are at most as many new ones as
    sources delivered, at most one when that number reaches the batch size,
    and none without a package id. *)
Theorem cycle_submissions config env sink st :
  historyWf (priceHistory (world st)) ->
  let delivered :=
    length (successes (filter (fun c => enabled c = true) (chains config)) env) in
  exists new,
    submitted (world (fst (runUpdateCycle config (botComponents config env sink) st)))
    = submitted (world st) ++ new /\
    (length new <= delivered)%nat /\
    (lengthGe delivered (batchSize config) = true -> (length new <= 1)%nat) /\
    (packageId (sui config) = "0x0" -> new = []).
Proof.
  intros Hwf delivered.
  destruct (fetchAllGasPrices_cycle (chains config) env _ Hwf)
    as (h' & batch & E & Hwf' & Hrec & Hb & _). cbn zeta in Hb.
  assert (length batch = delivered) as Hlen.
  { unfold delivered. rewrite <- Hb. by rewrite length_fmap. }
  unfold runUpdateCycle, runUpdateCycle_try, tryCatch.
  rewrite bind_run. cbn [fetchAll botComponents]. rewrite !zoom_run, E.
  destruct batch as [|d batch].
  - exists []. rewrite app_nil_r. cbn [length] in *. repeat split; cbn [length]; lia.
  - cbn [length Nat.eqb].
    rewrite bind_run, (forEach_logPrice _ _ Hrec), bind_run.
    destruct (publishPrices_bot_adds config env sink (d :: batch)
                (setWorld (setHistory h' (world st)) st))
      as (st' & new & -> & _ & _ & Hs & Hn & H1 & Hd).
    exists new. cbn in Hs |- *. split; [done|]. pose proof (nonZero_length (d :: batch)).
    rewrite Hlen in *. by repeat split; [lia|..].
Qed.

Lemma cycle_submissions_witness :
  let delivered :=
    length (successes (filter (fun c => enabled c = true) (chains testConfig)) failingB) in
  exists new,
    submitted (world (fst (runUpdateCycle testConfig
                             (botComponents testConfig failingB acceptAll) initialState)))
    = submitted (world initialState) ++ new /\
    (length new <= delivered)%nat /\
    (lengthGe delivered (batchSize testConfig) = true -> (length new <= 1)%nat) /\
    (packageId (sui testConfig) = "0x0" -> new = []).
Proof.
  apply (cycle_submissions testConfig failingB acceptAll initialState).
  apply historyWf_empty.
Defined.

(** X19. Every cycle moves at most one of the two counters, by one: over
    any run of cycles, whatever the fetcher and the publisher do, the sum of
    [updateCount] and [errorCount] grows by at most the number of cycles
    run. *)
Theorem counters_count_cycles config css st :
  (updateCount (runCycles config css st) + errorCount (runCycles config css st)
   <= updateCount st + errorCount st + length css)%nat.
Proof.
  revert st. induction css as [|cs css IH]; intros st; [cbn; lia|].
  change (runCycles config (cs :: css) st)
    with (runCycles config css (fst (runUpdateCycle config cs st))).
  specialize (IH (fst (runUpdateCycle config cs st))).
  pose proof (runUpdateCycle_counters config cs st) as H. cbn zeta in H.
  assert (updateCount (fst (runUpdateCycle config cs st))
          + errorCount (fst (runUpdateCycle config cs st))
          <= updateCount st + errorCount st + 1)%nat as Hstep.
  { destruct (fetchAll cs (chains config) (world st)) as [w [[|d prices]|msg]];
      [| destruct (snd _) |]; injection H as -> ->; lia. }
  cbn [length]. lia.
Qed.

(** X20. With the bot's own fetcher and publisher, started on well-formed
    histories, [errorCount] never moves however many cycles run and
    whichever sources or submissions fail; [updateCount] rises by exactly
    the number of cycles in which at least one source delivered; and the
    histories stay well formed. *)
Theorem bot_never_counts_errors config outs st :
  historyWf (priceHistory (world st)) ->
  errorCount (runCycles config (botCycles config outs) st) = errorCount st /\
  updateCount (runCycles config (botCycles config outs) st)
  = (updateCount st + length (fruitful config outs))%nat /\
  historyWf (priceHistory (world (runCycles config (botCycles config outs) st))).
Proof.
  revert st. induction outs as [|[env sink] outs IH]; intros st Hwf.
  - cbn. split; [done|]. split; [lia|done].
  - change (runCycles config (botCycles config ((env, sink) :: outs)) st)
      with (runCycles config (botCycles config outs)
              (fst (runUpdateCycle config (botComponents config env sink) st))).
    destruct (runUpdateCycle_bot config env sink st Hwf) as (st' & -> & Hwf' & He & Hu).
    cbn [fst]. destruct (IH st' Hwf') as (-> & -> & Hwf''). split; [done|]. split; [|done].
    rewrite Hu. unfold fruitful. rewrite filter_cons. cbn [fst].
    destruct (successes _ env) as [|s l].
    + rewrite decide_False by (intros H; by apply H). lia.
    + rewrite decide_True by done. cbn [length]. lia.
Qed.

Lemma bot_never_counts_errors_witness :
  errorCount (runCycles testConfig
                (botCycles testConfig [(failingB, acceptAll); (allFail, acceptAll)])
                initialState) = errorCount initialState /\
  updateCount (runCycles testConfig
                 (botCycles testConfig [(failingB, acceptAll); (allFail, acceptAll)])
                 initialState)
  = (updateCount initialState
     + length (fruitful testConfig [(failingB, acceptAll); (allFail, acceptAll)]))%nat /\
  historyWf (priceHistory (world (runCycles testConfig
                (botCycles testConfig [(failingB, acceptAll); (allFail, acceptAll)])
                initialState))).
Proof.
  apply (bot_never_counts_errors testConfig
           [(failingB, acceptAll); (allFail, acceptAll)] initialState).
  apply historyWf_empty.
Defined.

(** ** Chains that take part, and what the records report *)

Lemma fetched_record_chain c rpc now h h' d :
  fetchChainGasPrice c rpc now h = (h', Normal (Some d)) -> chain d = name c.
Proof.
  rewrite fetchChainGasPrice_spec. destruct (sampleOf rpc); [|done]. cbn zeta.
  destruct (calculateStats _); [|done]. by intros [= _ <-].
Qed.

Lemma settle_namesInv enabledChains env h0 i h slots :
  namesInv enabledChains h0 h slots ->
  exists h' slots',
    settle enabledChains env i slots h = (h', Normal slots') /\
    namesInv enabledChains h0 h' slots'.
Proof.
  intros (Hrest & Hlen & Hrec). unfold settle.
  destruct (enabledChains !! i) as [c|] eqn:Ec; [|by exists h, slots].
  destruct (slots !! i) as [[r|]|] eqn:Es; [by exists h, slots| |by exists h, slots].
  destruct (fetchChainGasPrice_returns c (rpcOf env i) (clockOf env i) h) as [r Er].
  destruct (fetchChainGasPrice c (rpcOf env i) (clockOf env i) h) as [h' res] eqn:E.
  cbn [snd] in Er. subst res.
  exists h', (<[i := Some r]> slots). rewrite bind_run, E, ret_run. split; [done|].
  split; [|split].
  - intros k Hk. rewrite <- (Hrest k Hk).
    pose proof (fetchChainGasPrice_other c (rpcOf env i) (clockOf env i) h k) as Ho.
    rewrite E in Ho. apply Ho. intros ->. apply Hk, list_elem_of_fmap.
    exists c. split; [done|]. by eapply list_elem_of_lookup_2.
  - by rewrite length_insert.
  - intros j d. destruct (decide (j = i)) as [->|Hne].
    + rewrite list_lookup_insert_eq by by eapply lookup_lt_Some.
      intros [= ->]. exists c. split; [done|]. by eapply fetched_record_chain.
    + rewrite list_lookup_insert_ne by done. apply Hrec.
Qed.

Lemma settleAll_namesInv enabledChains env h0 order h slots :
  namesInv enabledChains h0 h slots ->
  exists h' slots',
    settleAll enabledChains env order slots h = (h', Normal slots') /\
    namesInv enabledChains h0 h' slots'.
Proof.
  revert h slots. induction order as [|i order IH]; intros h slots Hinv; [by exists h, slots|].
  destruct (settle_namesInv enabledChains env h0 i h slots Hinv) as (h1 & slots1 & E1 & Hinv1).
  destruct (IH h1 slots1 Hinv1) as (h2 & slots2 & E2 & Hinv2).
  exists h2, slots2. cbn [settleAll]. by rewrite bind_run, E1, E2.
Qed.

Lemma omap_length {A B} (f : A -> option B) (l : list A) :
  (length (omap f l) <= length l)%nat.
Proof.
  induction l as [|x l IH]; [done|]. cbn [omap list_omap].
  destruct (f x); cbn [length]; lia.
Qed.

(** X21. Only enabled chains take part in a call of [fetchAllGasPrices],
    whatever the stored histories and the answers are: the batch has at most
    one record for each enabled chain, every record carries the name of an
    enabled chain, and the history under any name that no enabled chain
    bears is left as it was. *)
Theorem fetchAllGasPrices_enabled_only chains env h :
  let enabledChains := filter (fun c => enabled c = true) chains in
  exists h' batch,
    fetchAllGasPrices chains env h = (h', Normal batch) /\
    (length batch <= length enabledChains)%nat /\
    (forall d, d ∈ batch -> chain d ∈ name <$> enabledChains) /\
    (forall k, k ∉ name <$> enabledChains -> h' !! k = h !! k).
Proof.
  intros enabledChains. set (n := length enabledChains).
  assert (namesInv enabledChains h h (replicate n None)) as Hinit.
  { split; [done|]. split; [apply length_replicate|].
    by intros i d [? _]%lookup_replicate. }
  destruct (settleAll_namesInv enabledChains env h (settleOrder env ++ seq 0 n) h _ Hinit)
    as (h' & slots & E & Hrest & Hlen & Hrec).
  exists h', (omap (fun r : Slot => r ≫= id) slots). split.
  { unfold fetchAllGasPrices. fold enabledChains. fold n. by rewrite bind_run, E. }
  split; [|split; [|done]].
  - unfold n. rewrite <- Hlen. apply omap_length.
  - intros d (slot & [i Hi]%list_elem_of_lookup & Hd)%list_elem_of_omap.
    destruct slot as [[d'|]|]; try done. cbn in Hd. injection Hd as ->.
    destruct (Hrec i d Hi) as (c & Hc & ->).
    apply list_elem_of_fmap. exists c. split; [done|]. by eapply list_elem_of_lookup_2.
Qed.

(** X22. Publishing has no say in what a cycle of the bot records: on
    well-formed histories the counters and the price histories after the
    cycle are the same whatever the network answers to the submissions, and
    whether or not a package id is configured; [updateCount] counts cycles
    that fetched a price, not transactions that went through. *)
Theorem cycle_ignores_sink config config' env sink sink' st :
  historyWf (priceHistory (world st)) ->
  chains config' = chains config ->
  let st1 := fst (runUpdateCycle config (botComponents config env sink) st) in
  let st2 := fst (runUpdateCycle config' (botComponents config' env sink') st) in
  counters st1 = counters st2 /\
  priceHistory (world st1) = priceHistory (world st2) /\
  priceHistory (world st1)
  = fst (fetchAllGasPrices (chains config) env (priceHistory (world st))).
Proof.
  intros Hwf Hch.
  assert (forall cfg snk, chains cfg = chains config ->
    let st' := fst (runUpdateCycle cfg (botComponents cfg env snk) st) in
    counters st'
    = (match successes (filter (fun c => enabled c = true) (chains config)) env with
       | [] => updateCount st
       | _ => S (updateCount st)
       end, errorCount st) /\
    priceHistory (world st')
    = fst (fetchAllGasPrices (chains config) env (priceHistory (world st)))) as Hone.
  { intros cfg snk Hc.
    destruct (fetchAllGasPrices_cycle (chains config) env _ Hwf)
      as (h' & batch & E & Hwf' & Hrec & Hb & _). cbn zeta in Hb.
    unfold runUpdateCycle, runUpdateCycle_try, tryCatch.
    rewrite bind_run. cbn [fetchAll botComponents]. rewrite !zoom_run, Hc, E.
    destruct batch as [|d batch].
    - rewrite <- Hb. by cbn.
    - rewrite <- Hb. cbn [length Nat.eqb fmap list_fmap].
      rewrite bind_run, (forEach_logPrice _ _ Hrec), bind_run.
      destruct (publishPrices_bot_adds cfg env snk (d :: batch)
                  (setWorld (setHistory h' (world st)) st))
        as (st' & new & -> & Hc' & Hh & _).
      cbn. unfold counters in *. cbn in *. rewrite Hh. injection Hc' as -> ->. done. }
  destruct (Hone config sink eq_refl) as [C1 H1].
  destruct (Hone config' sink' Hch) as [C2 H2].
  cbn zeta in *. split; [congruence|]. split; [congruence|done].
Qed.

Lemma cycle_ignores_sink_witness :
  let st1 := fst (runUpdateCycle testConfig
                    (botComponents testConfig failingB acceptAll) initialState) in
  let st2 := fst (runUpdateCycle demoConfig
                    (botComponents demoConfig failingB (fun _ _ => Throw "rejected"))
                    initialState) in
  counters st1 = counters st2 /\
  priceHistory (world st1) = priceHistory (world st2) /\
  priceHistory (world st1)
  = fst (fetchAllGasPrices (chains testConfig) failingB (priceHistory (world initialState))).
Proof.
  apply (cycle_ignores_sink testConfig demoConfig failingB acceptAll
           (fun _ _ => Throw "rejected") initialState).
  - apply historyWf_empty.
  - reflexivity.
Defined.

(** ** Windows over whole cycles *)

(** X24. Over any run of calls of [fetchAllGasPrices], with the requests
    of each call settling in any order, the window of an enabled chain is
    fed by that chain's own source alone: when the enabled chains bear
    distinct names, the window after the run is the window before it with
    the samples its source delivered appended one by one, oldest first, each
    append keeping the last [MAX_HISTORY_SIZE] entries; calls in which the
    source failed leave no trace, and the other chains have no influence. *)
Theorem cycles_keep_each_window chains envs h i c :
  NoDup (name <$> filter (fun c => enabled c = true) chains) ->
  filter (fun c => enabled c = true) chains !! i = Some c ->
  default [] (fetchCycles chains envs h !! name c)
  = fold_left appendHistory (samplesOf i envs) (default [] (h !! name c)).
Proof.
  intros Hnd Hi. revert h. induction envs as [|env envs IH]; intros h; [done|].
  unfold fetchCycles, samplesOf in *. cbn [fold_left omap list_omap].
  rewrite IH, (fetchAllGasPrices_window _ _ _ _ _ Hnd Hi), fetchChainGasPrice_spec.
  destruct (sampleOf (rpcOf env i)) as [z|]; [|done].
  cbn [fst fmap list_fmap fold_left]. by rewrite lookup_insert_eq.
Qed.

Lemma cycles_keep_each_window_witness :
  default [] (fetchCycles threeChains [failingB; allFail; failingB] ∅ !! "A")
  = fold_left appendHistory (samplesOf 0 [failingB; allFail; failingB])
      (default [] ((∅ : PriceHistory) !! "A")).
Proof.
  apply (cycles_keep_each_window threeChains [failingB; allFail; failingB] ∅ 0
           {| name := "A"; rpcUrl := "https://a.example"; enabled := true |}).
  - apply (bool_decide_unpack _). vm_compute. exact I.
  - reflexivity.
Defined.

Lemma reachable_canonical h k l :
  reachable h ->
  h !! k = Some l ->
  (length l <= MAX_HISTORY_SIZE)%nat /\ Forall (fun s => exists z, s = toString z) l.
Proof.
  intros Hr. revert k l. induction Hr as [|h c rpc now Hr IH]; intros k l.
  - by rewrite lookup_empty.
  - rewrite fetchChainGasPrice_spec.
    destruct (sampleOf rpc) as [z|]; cbn [fst]; [|apply IH].
    destruct (decide (k = name c)) as [->|Hne]; [|rewrite lookup_insert_ne by done; apply IH].
    rewrite lookup_insert_eq. intros [= <-].
    pose proof MAX_HISTORY_SIZE_pos as Hpos. split.
    + rewrite appendHistory_slice, slice_last_length, length_app. cbn [length]. lia.
    + apply appendHistory_Forall; [|by eexists].
      destruct (h !! name c) as [old|] eqn:E; [|constructor]. by apply (IH _ _ E).
Qed.

(** X23. The high and the low that a record reports are prices that were
    observed: after a successful fetch on a history the process can hold,
    the chain's window ends with the record's price, and the record's
    [high24h] and [low24h] are themselves entries of that window, which
    holds at most [MAX_HISTORY_SIZE] samples. *)
Theorem record_extremes_observed c rpc now h h' d :
  reachable h ->
  fetchChainGasPrice c rpc now h = (h', Normal (Some d)) ->
  exists l,
    h' !! name c = Some l /\
    (length l <= MAX_HISTORY_SIZE)%nat /\
    last l = Some (priceWei d) /\
    high24h d ∈ l /\ low24h d ∈ l.
Proof.
  intros Hr E.
  assert (reachable h') as Hr'.
  { replace h' with (fst (fetchChainGasPrice c rpc now h)) by by rewrite E.
    by apply reachable_fetch. }
  revert E. rewrite fetchChainGasPrice_spec.
  destruct (sampleOf rpc) as [z|]; [|done]. cbn zeta.
  set (l := appendHistory _ _).
  destruct (calculateStats l) as [stats|] eqn:Es; [|done]. intros [= <- <-].
  assert (<[name c := l]> h !! name c = Some l) as Hl by by rewrite lookup_insert_eq.
  destruct (reachable_canonical _ _ _ Hr' Hl) as [Hlen Hcan].
  exists l. split; [done|]. split; [done|]. cbn [priceWei high24h low24h].
  split.
  { unfold l. rewrite appendHistory_slice. unfold slice_last.
    rewrite length_app. cbn [length]. pose proof MAX_HISTORY_SIZE_pos.
    rewrite drop_app_le by lia. by rewrite last_snoc. }
  assert (l <> []) as Hne.
  { intros E0. pose proof (appendHistory_last (default [] (h !! name c)) (toString z)) as Hin.
    fold l in Hin. rewrite E0 in Hin. by apply elem_of_nil in Hin. }
  assert (is_Some (mapM StringToBigInt l)) as [zs Hzs].
  { apply mapM_is_Some. eapply Forall_impl; [exact Hcan|].
    intros s [y ->]. exists y. apply StringToBigInt_toString. }
  assert (zs <> []) as Hzne.
  { intros ->. apply mapM_Some in Hzs. apply Forall2_nil_inv_r in Hzs. done. }
  destruct (calculateStats_extrema l zs stats Hzs Hzne Es)
    as (hi & lo & -> & -> & Hhi & Hlo & _).
  apply mapM_Some in Hzs.
  assert (forall y, y ∈ zs -> toString y ∈ l) as Hback.
  { intros y (s & Hs & Ey)%(parsed_elem_of l zs y Hzs).
    rewrite Forall_forall in Hcan. destruct (Hcan s Hs) as [y' ->].
    rewrite StringToBigInt_toString in Ey. by injection Ey as ->. }
  split; by apply Hback.
Qed.

Lemma record_extremes_observed_witness :
  exists l,
    fst (fetchChainGasPrice ethereum (RpcString "0x20") 2
           (fst (fetchChainGasPrice ethereum (RpcString "0x10") 1 ∅))) !! name ethereum
    = Some l /\
    (length l <= MAX_HISTORY_SIZE)%nat /\
    last l = Some "32" /\
    "32" ∈ l /\ "16" ∈ l.
Proof.
  apply (record_extremes_observed ethereum (RpcString "0x20") 2
           (fst (fetchChainGasPrice ethereum (RpcString "0x10") 1 ∅))
           _
           {| chain := "ethereum"; priceWei := "32"; high24h := "32"; low24h := "16";
              timestamp := 2 |}).
  - apply reachable_fetch, reachable_start.
  - vm_compute. reflexivity.
Defined.
